(** * node_server.py: blocks, proof of work, chain validation, consensus

    A shallow embedding of the ledger core of [node_server.py]: the
    [Block] and [Blockchain] classes, [create_chain_from_dump] and
    [consensus].  The two library functions the digest depends on,
    [hashlib.sha256] and [json.dumps(..., sort_keys=True)], are embedded
    as executable functions so that digests of concrete blocks can be
    evaluated. *)

From Stdlib Require Import ZArith List String Ascii Bool Lia.
From Stdlib Require Import DecimalString Permutation Sorted.
Import ListNotations.
Set Warnings "-register-all".
Local Open Scope string_scope.
Local Open Scope Z_scope.
Local Open Scope list_scope.

(** ** hashlib.sha256 (FIPS 180-4), on 32-bit words held in [Z] *)

Module Sha256.

Definition w32 (x : Z) : Z := Z.land x 4294967295.

Definition add32 (x y : Z) : Z := w32 (x + y).

Definition rotr (n x : Z) : Z :=
  Z.lor (Z.shiftr x n) (w32 (Z.shiftl x (32 - n))).

Definition ch (x y z : Z) : Z :=
  Z.lxor (Z.land x y) (Z.land (Z.lxor x 4294967295) z).

Definition maj (x y z : Z) : Z :=
  Z.lxor (Z.lxor (Z.land x y) (Z.land x z)) (Z.land y z).

Definition bsig0 (x : Z) : Z := Z.lxor (Z.lxor (rotr 2 x) (rotr 13 x)) (rotr 22 x).
Definition bsig1 (x : Z) : Z := Z.lxor (Z.lxor (rotr 6 x) (rotr 11 x)) (rotr 25 x).
Definition ssig0 (x : Z) : Z := Z.lxor (Z.lxor (rotr 7 x) (rotr 18 x)) (Z.shiftr x 3).
Definition ssig1 (x : Z) : Z := Z.lxor (Z.lxor (rotr 17 x) (rotr 19 x)) (Z.shiftr x 10).

(** The round constants are the first 32 bits of the fractional parts of
    the cube roots of the first 64 primes; the initial hash value takes the
    square roots of the first 8. *)
Definition primes : list Z :=
  [ 2; 3; 5; 7; 11; 13; 17; 19; 23; 29; 31; 37; 41; 43; 47; 53;
    59; 61; 67; 71; 73; 79; 83; 89; 97; 101; 103; 107; 109; 113; 127; 131;
    137; 139; 149; 151; 157; 163; 167; 173; 179; 181; 191; 193; 197; 199; 211; 223;
    227; 229; 233; 239; 241; 251; 257; 263; 269; 271; 277; 281; 283; 293; 307; 311 ].

(** Integer cube root, one bit at a time from bit [bit - 1] down. *)
Fixpoint cbrt_from (bit : nat) (n r : Z) : Z :=
  match bit with
  | O => r
  | S b =>
      let c := r + Z.shiftl 1 (Z.of_nat b) in
      cbrt_from b n (if c * c * c <=? n then c else r)
  end.

Definition K : list Z :=
  Eval vm_compute in map (fun p => w32 (cbrt_from 35 (Z.shiftl p 96) 0)) primes.

Definition H0 : list Z :=
  Eval vm_compute in map (fun p => w32 (Z.sqrt (Z.shiftl p 64))) (firstn 8 primes).

(** Padding: the byte 0x80, zero bytes up to 56 modulo 64, then the bit
    length as a 64-bit big-endian integer. *)
Fixpoint be_bytes (n : nat) (x : Z) : list Z :=
  match n with
  | O => []
  | S k => Z.land (Z.shiftr x (8 * Z.of_nat k)) 255 :: be_bytes k x
  end.

Definition pad (msg : list Z) : list Z :=
  let len := Z.of_nat (List.length msg) in
  let zeros := Z.to_nat ((55 - len) mod 64) in
  msg ++ [128] ++ repeat 0 zeros ++ be_bytes 8 (8 * len).

Fixpoint words (fuel : nat) (bs : list Z) : list Z :=
  match fuel, bs with
  | S f, b0 :: b1 :: b2 :: b3 :: rest =>
      (Z.shiftl b0 24 + Z.shiftl b1 16 + Z.shiftl b2 8 + b3) :: words f rest
  | _, _ => []
  end.

(** The message schedule, kept newest word first: the head is W[t-1]. *)
Fixpoint schedule (n : nat) (rev_w : list Z) : list Z :=
  match n with
  | O => rev_w
  | S k =>
      let wt := add32 (add32 (ssig1 (nth 1 rev_w 0)) (nth 6 rev_w 0))
                      (add32 (ssig0 (nth 14 rev_w 0)) (nth 15 rev_w 0)) in
      schedule k (wt :: rev_w)
  end.

Record regs := Regs { ra : Z; rb : Z; rc : Z; rd : Z; re : Z; rf : Z; rg : Z; rh : Z }.

Definition round (s : regs) (kw : Z * Z) : regs :=
  let (k, w) := kw in
  let t1 := add32 (add32 (add32 (rh s) (bsig1 (re s))) (ch (re s) (rf s) (rg s)))
                  (add32 k w) in
  let t2 := add32 (bsig0 (ra s)) (maj (ra s) (rb s) (rc s)) in
  Regs (add32 t1 t2) (ra s) (rb s) (rc s) (add32 (rd s) t1) (re s) (rf s) (rg s).

Definition regs_of (h : list Z) : regs :=
  Regs (nth 0 h 0) (nth 1 h 0) (nth 2 h 0) (nth 3 h 0)
       (nth 4 h 0) (nth 5 h 0) (nth 6 h 0) (nth 7 h 0).

Definition compress (h : list Z) (blockw : list Z) : list Z :=
  let ws := rev (schedule 48 (rev blockw)) in
  let i := regs_of h in
  let s := fold_left round (combine K ws) i in
  [ add32 (ra i) (ra s); add32 (rb i) (rb s); add32 (rc i) (rc s); add32 (rd i) (rd s);
    add32 (re i) (re s); add32 (rf i) (rf s); add32 (rg i) (rg s); add32 (rh i) (rh s) ].

Fixpoint blocks (fuel : nat) (h : list Z) (ws : list Z) : list Z :=
  match fuel, ws with
  | S f, _ :: _ => blocks f (compress h (firstn 16 ws)) (skipn 16 ws)
  | _, _ => h
  end.

Definition digest (msg : list Z) : list Z :=
  let ws := words (List.length msg + 72) (pad msg) in
  blocks (List.length ws) H0 ws.

Definition hex_digit (d : Z) : ascii :=
  if d <? 10 then ascii_of_N (Z.to_N (48 + d)) else ascii_of_N (Z.to_N (87 + d)).

Fixpoint hex (n : nat) (x : Z) : string :=
  match n with
  | O => EmptyString
  | S k => String (hex_digit (Z.land (Z.shiftr x (4 * Z.of_nat k)) 15)) (hex k x)
  end.

Definition bytes_of_string (s : string) : list Z :=
  map (fun c => Z.of_N (N_of_ascii c)) (list_ascii_of_string s).

(** [sha256(s.encode()).hexdigest()] for a string of ASCII characters. *)
Definition hexdigest (s : string) : string :=
  String.concat "" (map (hex 8) (digest (bytes_of_string s))).

End Sha256.

(** ** json.dumps(obj, sort_keys=True)

    Python values that reach [json.dumps] here.  A [str] is a [string]
    whose characters are the code points 0..255; a float is carried by the
    text the encoder emits for it: what [float.__repr__] prints for a finite
    float, and [NaN], [Infinity] or [-Infinity] otherwise. *)

Inductive json : Type :=
| JNull
| JBool (b : bool)
| JInt (n : Z)
| JFloat (repr : string)
| JStr (s : string)
| JList (items : list json)
| JDict (items : list (string * json)).

Module Json.

Definition str_of_Z (n : Z) : string := NilZero.string_of_int (Z.to_int n).

Definition dquote : string := String "034"%char EmptyString.
Definition backslash : string := String "092"%char EmptyString.

(** [ESCAPE_ASCII]: the quote, the backslash and everything outside
    [' '..'~'] are replaced; the named escapes first, [\u00xx] otherwise. *)
Definition escape_char (c : ascii) : string :=
  let n := Z.of_N (N_of_ascii c) in
  if n =? 34 then backslash ++ dquote
  else if n =? 92 then backslash ++ backslash
  else if n =? 10 then backslash ++ "n"
  else if n =? 13 then backslash ++ "r"
  else if n =? 9 then backslash ++ "t"
  else if n =? 8 then backslash ++ "b"
  else if n =? 12 then backslash ++ "f"
  else if (32 <=? n) && (n <=? 126) then String c EmptyString
  else backslash ++ "u" ++ Sha256.hex 4 n.

Fixpoint escape (s : string) : string :=
  match s with
  | EmptyString => EmptyString
  | String c rest => escape_char c ++ escape rest
  end.

Definition encode_str (s : string) : string := dquote ++ escape s ++ dquote.

(** [sorted(dct.items())]: insertion sort on the keys, by code point. *)
Fixpoint insert_item {A : Type} (kv : string * A) (l : list (string * A))
  : list (string * A) :=
  match l with
  | [] => [kv]
  | kv' :: rest =>
      if String.leb (fst kv) (fst kv') then kv :: l
      else kv' :: insert_item kv rest
  end.

Definition sort_items {A : Type} (l : list (string * A)) : list (string * A) :=
  fold_right insert_item [] l.

Definition encode_item (kv : string * string) : string :=
  encode_str (fst kv) ++ ": " ++ snd kv.

Fixpoint dumps (j : json) : string :=
  match j with
  | JNull => "null"
  | JBool true => "true"
  | JBool false => "false"
  | JInt n => str_of_Z n
  | JFloat r => r
  | JStr s => encode_str s
  | JList items => "[" ++ String.concat ", " (map dumps items) ++ "]"
  | JDict items =>
      let encoded := map (fun kv => match kv with (k, v) => (k, dumps v) end) items in
      "{" ++ String.concat ", " (map encode_item (sort_items encoded)) ++ "}"
  end%string.

End Json.

(** ** Outcomes of a call

    A call returns a value, raises, or (for the unbounded search of
    [proof_of_work]) has not returned within the fuel given. *)

Inductive exn : Type :=
| IndexError
| AttributeError
| Exception (msg : string).

Inductive result (A : Type) : Type :=
| Ok (a : A)
| Raise (e : exn)
| OutOfFuel.

Arguments Ok {A} a.
Arguments Raise {A} e.
Arguments OutOfFuel {A}.

Definition bind {A B : Type} (r : result A) (k : A -> result B) : result B :=
  match r with
  | Ok a => k a
  | Raise e => Raise e
  | OutOfFuel => OutOfFuel
  end.

Notation "x <- c ;; k" := (bind c (fun x => k))
  (at level 61, c at next level, right associativity).
Notation "' pat <- c ;; k" := (bind c (fun x => match x with pat => k end))
  (at level 61, pat pattern, c at next level, right associativity).

(** ** class Block

    The instance dictionary: the five attributes set by [__init__], and
    [hash], which exists only once it has been assigned ([None] before
    that and after [delattr]). *)

Record Block : Type := mkBlock {
  index : Z;
  data : list json;
  timestamp : json;
  previous_hash : string;
  nonce : Z;
  hash : option string
}.

(** [Block(index, data, timestamp, previous_hash, nonce = 0)] *)
Definition Block_init (i : Z) (d : list json) (t : json) (p : string) (n : Z) : Block :=
  mkBlock i d t p n None.

Definition setattr_hash (h : string) (b : Block) : Block :=
  mkBlock (index b) (data b) (timestamp b) (previous_hash b) (nonce b) (Some h).

Definition delattr_hash (b : Block) : Block :=
  mkBlock (index b) (data b) (timestamp b) (previous_hash b) (nonce b) None.

Definition setattr_nonce (n : Z) (b : Block) : Block :=
  mkBlock (index b) (data b) (timestamp b) (previous_hash b) n (hash b).

(** [self.__dict__], in insertion order. *)
Definition Block_dict (b : Block) : list (string * json) :=
  [ ("index", JInt (index b)); ("data", JList (data b));
    ("timestamp", timestamp b); ("previous_hash", JStr (previous_hash b));
    ("nonce", JInt (nonce b)) ]
  ++ match hash b with
     | Some h => [("hash", JStr h)]
     | None => []
     end.

Definition compute_hash (b : Block) : string :=
  let block_string := Json.dumps (JDict (Block_dict b)) in
  Sha256.hexdigest block_string.

(** ** class Blockchain *)

Definition difficulty : nat := 2.

(** ['0' * n] *)
Fixpoint str_mul (c : ascii) (n : nat) : string :=
  match n with
  | O => EmptyString
  | S k => String c (str_mul c k)
  end.

(** [s.startswith(p)] *)
Fixpoint startswith (s p : string) : bool :=
  match p, s with
  | EmptyString, _ => true
  | String _ _, EmptyString => false
  | String a p', String b s' => Ascii.eqb a b && startswith s' p'
  end.

Record Blockchain : Type := mkBlockchain {
  unconfirmed_data : list json;
  chain : list Block
}.

Definition Blockchain_init : Blockchain := mkBlockchain [] [].

Definition genesis_block : Block :=
  let genesis_block := Block_init 0 [] (JInt 0) "0" 0 in
  setattr_hash (compute_hash genesis_block) genesis_block.

Definition create_genesis_block (self : Blockchain) : Blockchain :=
  mkBlockchain (unconfirmed_data self) (chain self ++ [genesis_block]).

(** [self.chain[-1]] *)
Definition last_block (self : Blockchain) : result Block :=
  match rev (chain self) with
  | b :: _ => Ok b
  | [] => Raise IndexError
  end.

(** Reading [block.hash]. *)
Definition getattr_hash (b : Block) : result string :=
  match hash b with
  | Some h => Ok h
  | None => Raise AttributeError
  end.

Definition is_valid_proof (block : Block) (block_hash : string) : bool :=
  startswith block_hash (str_mul "0" difficulty)
  && String.eqb block_hash (compute_hash block).

(** [add_block] returns the flag and the chain object after the call. *)
Definition add_block (self : Blockchain) (block : Block) (proof : string)
  : result (bool * Blockchain) :=
  last <- last_block self ;;
  previous_hash_ <- getattr_hash last ;;
  if negb (String.eqb previous_hash_ (previous_hash block)) then Ok (false, self)
  else if negb (is_valid_proof block proof) then Ok (false, self)
  else
    let block := setattr_hash proof block in
    Ok (true, mkBlockchain (unconfirmed_data self) (chain self ++ [block])).

(** The [while] loop of [proof_of_work]: [fuel] bounds the number of
    increments of the nonce. *)
Fixpoint proof_of_work_loop (fuel : nat) (block : Block) (computed_hash : string)
  : result (Block * string) :=
  if startswith computed_hash (str_mul "0" difficulty) then Ok (block, computed_hash)
  else
    match fuel with
    | O => OutOfFuel
    | S fuel' =>
        let block := setattr_nonce (nonce block + 1) block in
        proof_of_work_loop fuel' block (compute_hash block)
    end.

(** Returns the digest together with the block as the search left it. *)
Definition proof_of_work (fuel : nat) (block : Block) : result (Block * string) :=
  let block := setattr_nonce 0 block in
  proof_of_work_loop fuel block (compute_hash block).

Definition add_new_data (self : Blockchain) (d : json) : Blockchain :=
  mkBlockchain (unconfirmed_data self ++ [d]) (chain self).

(** [mine]; [now] is the value [time.time()] returns. *)
Definition mine (fuel : nat) (now : json) (self : Blockchain)
  : result (bool * Blockchain) :=
  match unconfirmed_data self with
  | [] => Ok (false, self)
  | _ :: _ =>
      last <- last_block self ;;
      last_hash <- getattr_hash last ;;
      let new_block :=
        Block_init (index last + 1) (unconfirmed_data self) now last_hash 0 in
      '(new_block, proof) <- proof_of_work fuel new_block ;;
      '(_, self) <- add_block self new_block proof ;;
      Ok (true, mkBlockchain [] (chain self))
  end.


(** ** Chains as they travel between nodes

    [/chain] sends each block's [__dict__]; the receiving node gets, from
    [response.json()], a list of plain dictionaries with the six keys.  The
    values are taken at the types a node itself sends: integers for [index]
    and [nonce], strings for the two hashes.  A request that carries other
    JSON values under these keys is outside this embedding. *)

Record BlockData : Type := mkBlockData {
  bd_index : Z;
  bd_data : list json;
  bd_timestamp : json;
  bd_previous_hash : string;
  bd_nonce : Z;
  bd_hash : string
}.

(** What a loop over a chain may meet: a [Block] instance, or a dictionary
    of a parsed response.  Only the instance has attributes. *)
Inductive pyobj : Type :=
| PBlock (b : Block)
| PDict (d : BlockData).

(** The [for] loop of [check_chain_validity].  The blocks are mutated in
    place, so the loop returns the list as the call leaves it, next to the
    outcome. *)
Fixpoint check_chain_validity_loop (previous_hash_ : string) (chain : list pyobj)
  : list pyobj * result bool :=
  match chain with
  | [] => ([], Ok true)
  | PDict _ :: _ => (chain, Raise AttributeError)
  | PBlock block :: rest =>
      match hash block with
      | None => (chain, Raise AttributeError)
      | Some block_hash =>
          let block := delattr_hash block in
          if negb (is_valid_proof block block_hash)
             || negb (String.eqb previous_hash_ (previous_hash block))
          then (PBlock block :: rest, Ok false)
          else
            let block := setattr_hash block_hash block in
            let (rest', r) := check_chain_validity_loop block_hash rest in
            (PBlock block :: rest', r)
      end
  end.

Definition check_chain_validity (chain : list pyobj) : list pyobj * result bool :=
  check_chain_validity_loop "0" chain.

(** The same walk with the [Block] objects held in a store.  A Python list
    holds references, so one object may stand at several positions of
    [chain]; here [chain] lists addresses into [store], and [delattr] and
    the assignment to [block.hash] update the object at that address.  A
    reference always points to an object: the case of an address outside
    the store is there for totality only. *)
Fixpoint store_set (store : list Block) (a : nat) (b : Block) : list Block :=
  match store, a with
  | [], _ => []
  | _ :: rest, O => b :: rest
  | x :: rest, S a' => x :: store_set rest a' b
  end.

Fixpoint check_chain_validity_heap_loop (previous_hash_ : string)
    (store : list Block) (chain : list nat) : list Block * result bool :=
  match chain with
  | [] => (store, Ok true)
  | a :: rest =>
      match nth_error store a with
      | None => (store, Raise AttributeError)
      | Some block =>
          match hash block with
          | None => (store, Raise AttributeError)
          | Some block_hash =>
              let block := delattr_hash block in
              let store := store_set store a block in
              if negb (is_valid_proof block block_hash)
                 || negb (String.eqb previous_hash_ (previous_hash block))
              then (store, Ok false)
              else
                let store := store_set store a (setattr_hash block_hash block) in
                check_chain_validity_heap_loop block_hash store rest
          end
      end
  end.

Definition check_chain_validity_heap (store : list Block) (chain : list nat)
  : list Block * result bool :=
  check_chain_validity_heap_loop "0" store chain.

(** ** create_chain_from_dump *)

Definition block_of_data (block_data : BlockData) : Block :=
  Block_init (bd_index block_data) (bd_data block_data) (bd_timestamp block_data)
             (bd_previous_hash block_data) (bd_nonce block_data).

Fixpoint add_dumped_blocks (generated_blockchain : Blockchain) (rest : list BlockData)
  : result Blockchain :=
  match rest with
  | [] => Ok generated_blockchain
  | block_data :: rest' =>
      let block := block_of_data block_data in
      '(added, generated_blockchain) <-
         add_block generated_blockchain block (bd_hash block_data) ;;
      if negb added then Raise (Exception "The chain dump is tampered!!")
      else add_dumped_blocks generated_blockchain rest'
  end.

Definition create_chain_from_dump (chain_dump : list BlockData) : result Blockchain :=
  let generated_blockchain := create_genesis_block Blockchain_init in
  (* idx == 0: skip genesis block *)
  add_dumped_blocks generated_blockchain (tl chain_dump).

(** ** consensus

    The module-level name [blockchain] starts as a [Blockchain]; the last
    assignment of [consensus] binds it to the list taken from a response.
    A peer's answer is its reported [length] and its [chain]; [responses]
    lists the answers in the order the loop over [peers] meets them. *)

Inductive node : Type :=
| NodeBlockchain (bc : Blockchain)
| NodeList (l : list pyobj).

Definition node_chain_len (blockchain : node) : result Z :=
  match blockchain with
  | NodeBlockchain bc => Ok (Z.of_nat (List.length (chain bc)))
  | NodeList _ => Raise AttributeError
  end.

Fixpoint consensus_loop (responses : list (Z * list BlockData))
    (current_len : Z) (longest_chain : option (list pyobj))
  : result (Z * option (list pyobj)) :=
  match responses with
  | [] => Ok (current_len, longest_chain)
  | (length, chain_) :: rest =>
      if length >? current_len then
        let (chain_, r) := check_chain_validity (map PDict chain_) in
        valid <- r ;;
        if valid then consensus_loop rest length (Some chain_)
        else consensus_loop rest current_len longest_chain
      else consensus_loop rest current_len longest_chain
  end.

Definition consensus (blockchain : node) (responses : list (Z * list BlockData))
  : result (bool * node) :=
  current_len <- node_chain_len blockchain ;;
  '(_, longest_chain) <- consensus_loop responses current_len None ;;
  match longest_chain with
  | Some (o :: l) => Ok (true, NodeList (o :: l))
  | _ => Ok (false, blockchain)
  end.

(** ** The request handlers

    A handler is given the parsed body of the request and the node's chain
    object, and returns Flask's pair of body and status code next to the
    chain object after the call. *)

(** [d.get(key)] and [d[key] = v] on a dictionary kept in insertion order. *)
Fixpoint dict_get (key : string) (d : list (string * json)) : option json :=
  match d with
  | [] => None
  | (k, v) :: rest => if String.eqb k key then Some v else dict_get key rest
  end.

Fixpoint dict_set (key : string) (v : json) (d : list (string * json))
  : list (string * json) :=
  match d with
  | [] => [(key, v)]
  | (k, x) :: rest =>
      if String.eqb k key then (k, v) :: rest else (k, x) :: dict_set key v rest
  end.

(** The truth value of a Python value; a float is false when it is zero,
    which [repr] prints as [0.0] or [-0.0]. *)
Definition truthy (j : json) : bool :=
  match j with
  | JNull => false
  | JBool b => b
  | JInt n => negb (n =? 0)
  | JFloat r => negb (String.eqb r "0.0" || String.eqb r "-0.0")
  | JStr s => negb (String.eqb s "")
  | JList items => match items with [] => false | _ :: _ => true end
  | JDict items => match items with [] => false | _ :: _ => true end
  end.

(** [not tx_data.get(field)]; a missing key gives [None]. *)
Definition field_missing (d : list (string * json)) (field : string) : bool :=
  match dict_get field d with
  | Some v => negb (truthy v)
  | None => true
  end.

Definition required_fields : list string := ["author"; "content"].

(** [/new_data]; [now] is the value [time.time()] returns. *)
Definition new_data (now : json) (tx_data : json) (blockchain : Blockchain)
  : result ((string * Z) * Blockchain) :=
  match tx_data with
  | JDict d =>
      if existsb (field_missing d) required_fields
      then Ok (("Invalid data", 404), blockchain)
      else
        let tx_data := JDict (dict_set "timestamp" now d) in
        Ok (("Success", 201), add_new_data blockchain tx_data)
  | _ => Raise AttributeError
  end.

(** [/add_block] *)
Definition verify_and_add_block (block_data : BlockData) (blockchain : Blockchain)
  : result ((string * Z) * Blockchain) :=
  let block := block_of_data block_data in
  '(added, blockchain) <- add_block blockchain block (bd_hash block_data) ;;
  if negb added then Ok (("The block was discarded by the node", 400), blockchain)
  else Ok (("Block added to the chain", 201), blockchain).

(** [/chain], as the node that asked reads it: [response.json()['length']]
    and [response.json()['chain']], the list of each block's [__dict__].
    The dictionaries are given with their [hash] key, which the readers
    index; a block without the attribute has no such dictionary. *)
Definition block_dict_data (b : Block) : option BlockData :=
  match hash b with
  | Some h =>
      Some (mkBlockData (index b) (data b) (timestamp b) (previous_hash b) (nonce b) h)
  | None => None
  end.

Fixpoint chain_data (c : list Block) : option (list BlockData) :=
  match c with
  | [] => Some []
  | b :: rest =>
      match block_dict_data b, chain_data rest with
      | Some d, Some ds => Some (d :: ds)
      | _, _ => None
      end
  end.

Definition get_chain (blockchain : Blockchain) : option (Z * list BlockData) :=
  match chain_data (chain blockchain) with
  | Some ds => Some (Z.of_nat (List.length ds), ds)
  | None => None
  end.

(** ** Sample values *)

Module Samples.

Definition genesis_hash : string :=
  "387464254e78af2350d472f48b429b090b46f0b3066b222fb482a8edfdb601ef".

Definition node0 : Blockchain := create_genesis_block Blockchain_init.

Definition post : json :=
  JDict [("author", JStr "a"); ("content", JStr "hi");
         ("timestamp", JFloat "1699999999.25")].

Definition now : json := JFloat "1700000027.0".

Definition block1_hash : string :=
  "007dccd67eecd12a683ceeddc1f57f635477b2379c092c929ff7d0e085656bb1".

Definition block1 : Block :=
  mkBlock 1 [post] now genesis_hash 1 (Some block1_hash).

(** A block with index 5 and a proof valid on top of the genesis block. *)
Definition stray : Block := Block_init 5 [] (JInt 0) genesis_hash 5.

Definition stray_hash : string :=
  "006a4f49baa4d58aaca9de64268b049f7405f4acaa3f9fff90e6b9608f8a8630".

(** The request to [/add_block] that carries [stray]. *)
Definition stray_data : BlockData :=
  mkBlockData 5 [] (JInt 0) genesis_hash 5 stray_hash.

(** A chain of two blocks whose first block, unlike the genesis block, has
    a hash with the leading zeros. *)
Definition first99_hash : string :=
  "00a18d4f06cf49d1f6772323c60c0a1a17f16dce5626e9beb7938870d5460015".

Definition first99 : Block := mkBlock 0 [] (JInt 0) "0" 99 (Some first99_hash).

Definition second_hash : string :=
  "001ab866d22a72acad5bb3333b32257f03474380b5813bf0ab98203c8eed829f".

Definition second : Block := mkBlock 1 [] (JInt 377) first99_hash 1 (Some second_hash).

(** The answer of a peer that holds [genesis_block; block1]. *)
Definition genesis_data : BlockData := mkBlockData 0 [] (JInt 0) "0" 0 genesis_hash.

Definition block1_data : BlockData :=
  mkBlockData 1 [post] now genesis_hash 1 block1_hash.

(** [block1_data] with its data replaced and hash and nonce kept. *)
Definition block1_tampered : BlockData :=
  mkBlockData 1 [] now genesis_hash 1 block1_hash.

End Samples.

(** * Vocabulary of the statements *)

(** The test of the [while] loop of [proof_of_work]. *)
Definition meets_difficulty (digest : string) : bool :=
  startswith digest (str_mul "0" difficulty).

(** The hash a block at position [i] must name as its predecessor's: the
    initial value for the first block, the stored hash of the block before
    it otherwise. *)
Definition expected_previous (first : string) (chain : list Block) (i : nat)
  : option string :=
  match i with
  | O => Some first
  | S j => match nth_error chain j with
           | Some p => hash p
           | None => None
           end
  end.

(** Validity of a sequence, position by position: every block has a stored
    hash, names its predecessor's stored hash, and its stored hash is a
    valid proof of the block without the [hash] attribute. *)
Definition walk_valid (first : string) (chain : list Block) : Prop :=
  forall (i : nat) (b : Block),
    nth_error chain i = Some b ->
    exists h,
      hash b = Some h
      /\ expected_previous first chain i = Some (previous_hash b)
      /\ is_valid_proof (delattr_hash b) h = true.

Definition chain_valid (chain : list Block) : Prop := walk_valid "0" chain.

(** The block [add_block] stores for a dictionary of a dump. *)
Definition appended (block_data : BlockData) : Block :=
  setattr_hash (bd_hash block_data) (block_of_data block_data).

(** The fields of an entry of a dump, as a block without [hash], and as the
    block the rebuilt chain holds for it. *)
Definition raw_block (block_data : BlockData) : Block :=
  mkBlock (bd_index block_data) (bd_data block_data) (bd_timestamp block_data)
          (bd_previous_hash block_data) (bd_nonce block_data) None.

Definition stored_block (block_data : BlockData) : Block :=
  mkBlock (bd_index block_data) (bd_data block_data) (bd_timestamp block_data)
          (bd_previous_hash block_data) (bd_nonce block_data)
          (Some (bd_hash block_data)).

(** The checks of [add_block] on an entry of a dump, [prev] being the hash
    stored in the block before it: the entry names that hash, and its own
    hash has the leading zeros and is the digest of its five fields. *)
Definition entry_accepted (prev : string) (block_data : BlockData) : Prop :=
  bd_previous_hash block_data = prev
  /\ startswith (bd_hash block_data) (str_mul "0" difficulty) = true
  /\ bd_hash block_data = compute_hash (raw_block block_data).

(** Every entry passes, each on top of the entry before it. *)
Fixpoint dump_accepted (prev : string) (rest : list BlockData) : Prop :=
  match rest with
  | [] => True
  | block_data :: rest' =>
      entry_accepted prev block_data /\ dump_accepted (bd_hash block_data) rest'
  end.


(** Indices 0, 1, 2, ... along the chain. *)
Definition indices_consecutive (c : list Block) : Prop :=
  forall (i : nat) (b : Block), nth_error c i = Some b -> index b = Z.of_nat i.

(** The chain objects a node can hold: it starts from the genesis block and
    serves [/new_data], [/mine], [/add_block] (a block built from the
    request's fields, admitted when [admits head block_data] holds of the
    current head) and [consensus]. *)
Inductive reachable (admits : Block -> BlockData -> Prop) : Blockchain -> Prop :=
| reach_genesis :
    reachable admits (create_genesis_block Blockchain_init)
| reach_new_data self d :
    reachable admits self ->
    reachable admits (add_new_data self d)
| reach_mine self fuel now r self' :
    reachable admits self ->
    mine fuel now self = Ok (r, self') ->
    reachable admits self'
| reach_add_block self head block_data r self' :
    reachable admits self ->
    last_block self = Ok head ->
    admits head block_data ->
    add_block self (block_of_data block_data) (bd_hash block_data) = Ok (r, self') ->
    reachable admits self'
| reach_consensus self responses r self' :
    reachable admits self ->
    consensus (NodeBlockchain self) responses = Ok (r, NodeBlockchain self') ->
    reachable admits self'.

(** [/add_block] as the node serves it: any request is passed on. *)
Definition any_block (head : Block) (block_data : BlockData) : Prop := True.

(** Requests whose index is the head's index plus one. *)
Definition next_index (head : Block) (block_data : BlockData) : Prop :=
  bd_index block_data = index head + 1.

(** The digest of the genesis block, taken before its [hash] is set. *)
Definition genesis_digest : string := compute_hash (Block_init 0 [] (JInt 0) "0" 0).

(** The chains a node builds: the genesis block first, every later block
    naming the stored hash of the block before it and carrying a hash that
    is a valid proof of its own contents. *)
Definition node_chain (c : list Block) : Prop :=
  exists rest, c = genesis_block :: rest /\ walk_valid genesis_digest rest.

(** The order [sort_keys] puts the items of a dictionary in. *)
Definition key_le {A : Type} (x y : string * A) : Prop :=
  String.leb (fst x) (fst y) = true.

(** An element of which [block.hash] cannot be read. *)
Definition lacks_hash (o : pyobj) : Prop :=
  match o with
  | PDict _ => True
  | PBlock b => hash b = None
  end.

(** The characters of [hexdigest]. *)
Definition is_lower_hex (c : ascii) : bool :=
  let n := Z.of_N (N_of_ascii c) in
  ((48 <=? n) && (n <=? 57)) || ((97 <=? n) && (n <=? 102)).

(** A peer's answer does not lead [consensus] to look at its chain: it
    reports no more blocks than the node has, or no chain at all. *)
Definition not_checked (local_len : Z) (response : Z * list BlockData) : Prop :=
  fst response <= local_len \/ snd response = [].

(** * Properties *)

Arguments Sha256.hexdigest : simpl never.
Arguments Json.dumps : simpl never.
Arguments compute_hash : simpl never.
Arguments genesis_block : simpl never.

(** ** The digest function against published vectors *)

Example sha256_empty :
  Sha256.hexdigest ""
  = "e3b0c44298fc1c149afbf4c8996fb92427ae41e4649b934ca495991b7852b855".
Proof. vm_compute. reflexivity. Qed.

Example sha256_abc :
  Sha256.hexdigest "abc"
  = "ba7816bf8f01cfea414140de5dae2223b00361a396177a9cb410ff61f20015ad".
Proof. vm_compute. reflexivity. Qed.

Example sha256_two_blocks :
  Sha256.hexdigest "abcdbcdecdefdefgefghfghighijhijkijkljklmklmnlmnomnopnopq"
  = "248d6a61d20638b8e5c026930c3e6039a33ce45964ff2167f6ecedd419db06c1".
Proof. vm_compute. reflexivity. Qed.

Example genesis_block_hash : hash genesis_block = Some Samples.genesis_hash.
Proof. vm_compute. reflexivity. Qed.

(** Case analysis on a list from its end: from [E : rev l = ...] to the
    shape of [l] itself. *)
Ltac unrev E l :=
  apply (f_equal (@rev _)) in E; rewrite rev_involutive in E; subst l.

(** ** Records and attribute updates *)

Lemma setattr_delattr_hash (b : Block) (h : string) :
  hash b = Some h -> setattr_hash h (delattr_hash b) = b.
Proof. destruct b as [i d t p n o]; simpl; intros ->; reflexivity. Qed.

Lemma delattr_hash_absent (b : Block) : hash b = None -> delattr_hash b = b.
Proof. destruct b as [i d t p n o]; simpl; intros ->; reflexivity. Qed.

Lemma last_block_snoc (pool : list json) (init : list Block) (b : Block) :
  last_block (mkBlockchain pool (init ++ [b])) = Ok b.
Proof. unfold last_block; simpl. rewrite rev_app_distr. reflexivity. Qed.

Lemma startswith_leading (s : string) (n : nat) :
  startswith s (str_mul "0" n) = true ->
  forall i, (i < n)%nat -> String.get i s = Some "0"%char.
Proof.
  revert s.
  induction n as [|n IH]; intros s H i Hi; [lia|].
  destruct s as [|c s]; cbn [startswith str_mul] in H; [discriminate H|].
  apply andb_true_iff in H. destruct H as [Hc Hs].
  apply Ascii.eqb_eq in Hc. subst c.
  destruct i as [|i]; simpl; [reflexivity|]. apply IH; [exact Hs|lia].
Qed.

(** ** The digest *)

(** When [hash] is absent the digest is taken over the five fields, keys in
    sorted order. *)
Lemma compute_hash_canonical (b : Block) :
  hash b = None ->
  compute_hash b =
  Sha256.hexdigest
    ("{" ++ String.concat ", " (map Json.encode_item
       [ ("data", Json.dumps (JList (data b)));
         ("index", Json.dumps (JInt (index b)));
         ("nonce", Json.dumps (JInt (nonce b)));
         ("previous_hash", Json.dumps (JStr (previous_hash b)));
         ("timestamp", Json.dumps (timestamp b)) ]) ++ "}")%string.
Proof.
  intros H. unfold compute_hash, Block_dict. rewrite H. reflexivity.
Qed.

(** Once [hash] is assigned it is serialised with the rest, second in the
    sorted order. *)
Lemma compute_hash_with_hash (b : Block) (h : string) :
  hash b = Some h ->
  compute_hash b =
  Sha256.hexdigest
    ("{" ++ String.concat ", " (map Json.encode_item
       [ ("data", Json.dumps (JList (data b)));
         ("hash", Json.dumps (JStr h));
         ("index", Json.dumps (JInt (index b)));
         ("nonce", Json.dumps (JInt (nonce b)));
         ("previous_hash", Json.dumps (JStr (previous_hash b)));
         ("timestamp", Json.dumps (timestamp b)) ]) ++ "}")%string.
Proof.
  intros H. unfold compute_hash, Block_dict. rewrite H. reflexivity.
Qed.

(** C1, as stated, fails: the genesis block with and without its [hash]
    attribute agrees on the five fields and gets two different digests. *)
Lemma compute_hash_depends_on_hash :
  ~ (forall b1 b2 : Block,
       index b1 = index b2 -> data b1 = data b2 -> timestamp b1 = timestamp b2 ->
       previous_hash b1 = previous_hash b2 -> nonce b1 = nonce b2 ->
       compute_hash b1 = compute_hash b2).
Proof.
  intros H.
  specialize (H genesis_block (delattr_hash genesis_block)
                eq_refl eq_refl eq_refl eq_refl eq_refl).
  vm_compute in H. discriminate H.
Qed.

(** C1, amended: [compute_hash] is a function of the whole attribute
    dictionary.  Two blocks that agree on index, data, timestamp,
    previous_hash and nonce, and on the presence and value of [hash],
    receive the same digest; in particular when neither has a [hash]. *)
Theorem compute_hash_deterministic (b1 b2 : Block) :
  index b1 = index b2 -> data b1 = data b2 -> timestamp b1 = timestamp b2 ->
  previous_hash b1 = previous_hash b2 -> nonce b1 = nonce b2 ->
  hash b1 = hash b2 ->
  compute_hash b1 = compute_hash b2.
Proof.
  destruct b1 as [i1 d1 t1 p1 n1 h1], b2 as [i2 d2 t2 p2 n2 h2]; simpl.
  intros -> -> -> -> -> ->. reflexivity.
Qed.

Lemma compute_hash_deterministic_witness :
  compute_hash (Block_init 1 [Samples.post] Samples.now Samples.genesis_hash 1)
  = compute_hash (delattr_hash Samples.block1).
Proof.
  apply compute_hash_deterministic; reflexivity.
Defined.

(** ** add_block *)

Lemma is_valid_proof_iff (block : Block) (block_hash : string) :
  is_valid_proof block block_hash = true <->
  startswith block_hash (str_mul "0" difficulty) = true
  /\ block_hash = compute_hash block.
Proof.
  unfold is_valid_proof. rewrite andb_true_iff, String.eqb_eq. reflexivity.
Qed.

(** C3: on a chain whose head carries its hash, [add_block] returns false
    and leaves the chain as it was when the block's previous_hash is not the
    head's hash, or the proof lacks the leading zeros, or the proof is not
    the recomputed digest; otherwise it stores the proof in [block.hash],
    appends that block as the new head and returns true. *)
Theorem add_block_spec (self : Blockchain) (init : list Block) (head block : Block)
    (h proof : string) :
  chain self = init ++ [head] ->
  hash head = Some h ->
  (previous_hash block <> h
   \/ startswith proof (str_mul "0" difficulty) = false
   \/ proof <> compute_hash block ->
   add_block self block proof = Ok (false, self))
  /\
  (previous_hash block = h ->
   startswith proof (str_mul "0" difficulty) = true ->
   proof = compute_hash block ->
   let self' := mkBlockchain (unconfirmed_data self)
                             (chain self ++ [setattr_hash proof block]) in
   add_block self block proof = Ok (true, self')
   /\ last_block self' = Ok (setattr_hash proof block)
   /\ hash (setattr_hash proof block) = Some proof).
Proof.
  intros Hchain Hhash.
  assert (Hlast : last_block self = Ok head).
  { destruct self as [pool c]; simpl in Hchain; subst c. apply last_block_snoc. }
  unfold add_block, getattr_hash. rewrite Hlast. cbn [bind]. rewrite Hhash. cbn [bind].
  split.
  - intros [Hp | [Hz | Hd]].
    + destruct (String.eqb h (previous_hash block)) eqn:E; [|reflexivity].
      apply String.eqb_eq in E. congruence.
    + destruct (String.eqb h (previous_hash block)); [|reflexivity].
      unfold is_valid_proof. rewrite Hz. reflexivity.
    + destruct (String.eqb h (previous_hash block)); [|reflexivity].
      destruct (is_valid_proof block proof) eqn:E; [|reflexivity].
      apply is_valid_proof_iff in E. destruct E as [_ E]. contradiction.
  - intros Hp Hz Hd.
    assert (E1 : String.eqb h (previous_hash block) = true)
      by (apply String.eqb_eq; congruence).
    assert (E2 : is_valid_proof block proof = true)
      by (apply is_valid_proof_iff; split; assumption).
    rewrite E1, E2. cbn [negb].
    repeat split. apply last_block_snoc.
Qed.

Lemma add_block_spec_witness :
  add_block Samples.node0 Samples.stray "ff" = Ok (false, Samples.node0)
  /\ add_block Samples.node0 (delattr_hash Samples.block1) Samples.block1_hash
     = Ok (true, mkBlockchain [] [genesis_block; Samples.block1]).
Proof.
  split.
  - apply (proj1 (add_block_spec Samples.node0 [] genesis_block Samples.stray
                    Samples.genesis_hash "ff" eq_refl ltac:(vm_compute; reflexivity))).
    right; left. reflexivity.
  - apply (proj2 (add_block_spec Samples.node0 [] genesis_block
                    (delattr_hash Samples.block1)
                    Samples.genesis_hash Samples.block1_hash
                    eq_refl ltac:(vm_compute; reflexivity)));
      vm_compute; reflexivity.
Defined.

(** ** proof_of_work *)

Lemma setattr_nonce_same (b : Block) : setattr_nonce (nonce b) b = b.
Proof. destruct b; reflexivity. Qed.

Lemma setattr_nonce_twice (n m : Z) (b : Block) :
  setattr_nonce n (setattr_nonce m b) = setattr_nonce n b.
Proof. reflexivity. Qed.

(** What the loop returns: the first nonce, counting up from the current
    one, whose digest meets the difficulty. *)
Lemma proof_of_work_loop_spec (fuel : nat) :
  forall (b b' : Block) (digest : string),
    proof_of_work_loop fuel b (compute_hash b) = Ok (b', digest) ->
    exists k : nat,
      (k <= fuel)%nat
      /\ b' = setattr_nonce (nonce b + Z.of_nat k) b
      /\ digest = compute_hash b'
      /\ meets_difficulty digest = true
      /\ forall j : nat, (j < k)%nat ->
           meets_difficulty (compute_hash (setattr_nonce (nonce b + Z.of_nat j) b)) = false.
Proof.
  induction fuel as [|fuel IH]; intros b b' digest; cbn [proof_of_work_loop];
    fold (meets_difficulty (compute_hash b));
    destruct (meets_difficulty (compute_hash b)) eqn:E.
  - intros [= <- <-]. exists 0%nat.
    rewrite Z.add_0_r, setattr_nonce_same. repeat split; auto; lia.
  - discriminate.
  - intros [= <- <-]. exists 0%nat.
    rewrite Z.add_0_r, setattr_nonce_same. repeat split; auto; lia.
  - intros H. apply IH in H. destruct H as (k & Hk & Hb & Hd & Hm & Hmin).
    cbn [nonce setattr_nonce] in Hb, Hmin.
    exists (S k). rewrite setattr_nonce_twice in Hb.
    replace (nonce b + Z.of_nat (S k)) with (nonce b + 1 + Z.of_nat k) by lia.
    repeat split; auto; try lia.
    intros [|j] Hj.
    + rewrite Z.add_0_r, setattr_nonce_same. exact E.
    + specialize (Hmin j ltac:(lia)). rewrite setattr_nonce_twice in Hmin.
      replace (nonce b + Z.of_nat (S j)) with (nonce b + 1 + Z.of_nat j) by lia.
      exact Hmin.
Qed.

(** With fuel for every nonce below a satisfying one, the loop returns. *)
Lemma proof_of_work_loop_returns (k : nat) :
  forall (fuel : nat) (b : Block),
    (k <= fuel)%nat ->
    meets_difficulty (compute_hash (setattr_nonce (nonce b + Z.of_nat k) b)) = true ->
    exists b' digest, proof_of_work_loop fuel b (compute_hash b) = Ok (b', digest).
Proof.
  induction k as [|k IH]; intros fuel b Hk Hm.
  - rewrite Z.add_0_r, setattr_nonce_same in Hm.
    destruct fuel; cbn [proof_of_work_loop];
      fold (meets_difficulty (compute_hash b)); rewrite Hm; eauto.
  - destruct fuel as [|fuel]; [lia|]. cbn [proof_of_work_loop].
    fold (meets_difficulty (compute_hash b)).
    destruct (meets_difficulty (compute_hash b)); [eauto|].
    apply IH; [lia|]. cbn [nonce setattr_nonce]. rewrite setattr_nonce_twice.
    replace (nonce b + 1 + Z.of_nat k) with (nonce b + Z.of_nat (S k)) by lia.
    exact Hm.
Qed.

Lemma proof_of_work_returns (block : Block) (n : Z) (fuel : nat) :
  0 <= n -> (Z.to_nat n <= fuel)%nat ->
  meets_difficulty (compute_hash (setattr_nonce n block)) = true ->
  exists block' digest, proof_of_work fuel block = Ok (block', digest).
Proof.
  intros Hn Hf Hm. unfold proof_of_work.
  apply (proof_of_work_loop_returns (Z.to_nat n)); [exact Hf|].
  cbn [nonce setattr_nonce]. rewrite setattr_nonce_twice.
  rewrite Z2Nat.id by exact Hn. exact Hm.
Qed.

(** C7: when [proof_of_work] returns, the digest has [difficulty] leading
    '0' characters, the candidate differs from the one passed in only by its
    nonce, which is the least value from 0 upwards whose digest meets the
    difficulty, and [is_valid_proof] holds of the candidate and the digest. *)
Theorem proof_of_work_spec (fuel : nat) (block block' : Block) (digest : string) :
  proof_of_work fuel block = Ok (block', digest) ->
  (forall i : nat, (i < difficulty)%nat -> String.get i digest = Some "0"%char)
  /\ 0 <= nonce block'
  /\ block' = setattr_nonce (nonce block') block
  /\ (forall n : Z, 0 <= n < nonce block' ->
        meets_difficulty (compute_hash (setattr_nonce n block)) = false)
  /\ digest = compute_hash block'
  /\ is_valid_proof block' digest = true.
Proof.
  unfold proof_of_work. intros H.
  apply proof_of_work_loop_spec in H.
  destruct H as (k & _ & Hb & Hd & Hm & Hmin).
  cbn [nonce setattr_nonce] in Hb, Hmin. rewrite setattr_nonce_twice in Hb.
  assert (Hn : nonce block' = Z.of_nat k) by (rewrite Hb; reflexivity).
  split; [apply startswith_leading; exact Hm|].
  split; [lia|].
  split; [rewrite Hn; exact Hb|].
  split.
  - intros n Hrange. specialize (Hmin (Z.to_nat n) ltac:(lia)).
    rewrite setattr_nonce_twice in Hmin.
    rewrite Z.add_0_l, Z2Nat.id in Hmin by lia. exact Hmin.
  - split; [exact Hd|]. apply is_valid_proof_iff. split; [exact Hm|exact Hd].
Qed.

Lemma proof_of_work_spec_witness :
  nonce (delattr_hash Samples.block1) = 1
  /\ is_valid_proof (delattr_hash Samples.block1) Samples.block1_hash = true.
Proof.
  pose proof (proof_of_work_spec 3
                (Block_init 1 [Samples.post] Samples.now Samples.genesis_hash 0)
                (delattr_hash Samples.block1) Samples.block1_hash
                ltac:(vm_compute; reflexivity)) as H.
  split; [reflexivity | apply H].
Defined.

(** ** mine *)

Lemma last_block_inv (self : Blockchain) (head : Block) :
  last_block self = Ok head -> exists init, chain self = init ++ [head].
Proof.
  unfold last_block. destruct (rev (chain self)) as [|b l] eqn:E; [discriminate|].
  intros [= ->]. exists (rev l).
  rewrite <- (rev_involutive (chain self)), E. reflexivity.
Qed.

(** The two checks of [add_block], on a chain whose head carries its hash. *)
Lemma add_block_unfold (self : Blockchain) (head block : Block) (h proof : string) :
  last_block self = Ok head ->
  hash head = Some h ->
  add_block self block proof =
  if String.eqb h (previous_hash block) && is_valid_proof block proof
  then Ok (true, mkBlockchain (unconfirmed_data self)
                              (chain self ++ [setattr_hash proof block]))
  else Ok (false, self).
Proof.
  intros Hlast Hhash. unfold add_block, getattr_hash.
  rewrite Hlast. cbn [bind]. rewrite Hhash. cbn [bind].
  destruct (String.eqb h (previous_hash block)); [|reflexivity].
  destruct (is_valid_proof block proof); reflexivity.
Qed.

(** The candidate [mine] builds, once the search has returned, passes both
    checks of [add_block]. *)
Lemma mined_candidate_accepted (self : Blockchain) (head cand : Block)
    (h proof : string) (fuel : nat) (now : json) :
  last_block self = Ok head ->
  hash head = Some h ->
  proof_of_work fuel (Block_init (index head + 1) (unconfirmed_data self) now h 0)
    = Ok (cand, proof) ->
  add_block self cand proof =
  Ok (true, mkBlockchain (unconfirmed_data self)
                         (chain self ++ [setattr_hash proof cand])).
Proof.
  intros Hlast Hhash Hpow.
  rewrite (add_block_unfold self head cand h proof Hlast Hhash).
  apply proof_of_work_loop_spec in Hpow.
  destruct Hpow as (k & _ & Hb & Hd & Hm & _).
  assert (Hp : previous_hash cand = h) by (rewrite Hb; reflexivity).
  rewrite Hp, String.eqb_refl.
  assert (Hv : is_valid_proof cand proof = true)
    by (apply is_valid_proof_iff; split; assumption).
  rewrite Hv. reflexivity.
Qed.

(** Every way [mine] can return. *)
Lemma mine_returns (fuel : nat) (now : json) (self : Blockchain)
    (r : bool) (self' : Blockchain) :
  mine fuel now self = Ok (r, self') ->
  (unconfirmed_data self = [] /\ r = false /\ self' = self)
  \/ (unconfirmed_data self <> [] /\ r = true /\
      exists head h cand proof,
        last_block self = Ok head /\ hash head = Some h
        /\ proof_of_work fuel
             (Block_init (index head + 1) (unconfirmed_data self) now h 0)
           = Ok (cand, proof)
        /\ self' = mkBlockchain [] (chain self ++ [setattr_hash proof cand])).
Proof.
  unfold mine. destruct (unconfirmed_data self) as [|d pool] eqn:Epool.
  - intros [= <- <-]. left. auto.
  - intros H. right. split; [discriminate|].
    destruct (last_block self) as [head| |] eqn:Elast; cbn [bind] in H; try discriminate.
    unfold getattr_hash in H.
    destruct (hash head) as [h|] eqn:Ehash; cbn [bind] in H; try discriminate.
    destruct (proof_of_work fuel (Block_init (index head + 1) (d :: pool) now h 0))
      as [[cand proof]| |] eqn:Epow; cbn [bind] in H; try discriminate.
    rewrite <- Epool in Epow.
    rewrite (mined_candidate_accepted self head cand h proof fuel now Elast Ehash Epow) in H.
    cbn [bind chain] in H. injection H as <- <-.
    split; [reflexivity|]. exists head, h, cand, proof. rewrite Epool in Epow. auto.
Qed.






(** ** check_chain_validity *)

Lemma expected_previous_cons (first h : string) (b : Block) (l : list Block) (i : nat) :
  hash b = Some h ->
  expected_previous first (b :: l) (S i) = expected_previous h l i.
Proof. intros H. destruct i; simpl; [exact H | reflexivity]. Qed.

Lemma walk_valid_nil (first : string) : walk_valid first [].
Proof. intros [|i] b H; discriminate H. Qed.

Lemma walk_valid_cons (first : string) (b : Block) (rest : list Block) :
  walk_valid first (b :: rest) <->
  exists h, hash b = Some h /\ previous_hash b = first
            /\ is_valid_proof (delattr_hash b) h = true
            /\ walk_valid h rest.
Proof.
  split.
  - intros H. destruct (H 0%nat b eq_refl) as (h & Hh & He & Hv).
    exists h. injection He as He. repeat split; auto.
    intros i b' Hi. destruct (H (S i) b' Hi) as (h' & Hh' & He' & Hv').
    exists h'. rewrite (expected_previous_cons first h) in He' by exact Hh. auto.
  - intros (h & Hh & Hp & Hv & Hrest) [|i] b' Hi.
    + injection Hi as <-. exists h. simpl. rewrite Hp. auto.
    + destruct (Hrest i b' Hi) as (h' & Hh' & He' & Hv').
      exists h'. rewrite (expected_previous_cons first h) by exact Hh. auto.
Qed.

(** One iteration of the loop on a [Block] that has its hash. *)
Lemma check_loop_block (prev h : string) (b : Block) (rest : list pyobj) :
  hash b = Some h ->
  check_chain_validity_loop prev (PBlock b :: rest) =
  if is_valid_proof (delattr_hash b) h && String.eqb prev (previous_hash b)
  then (PBlock b :: fst (check_chain_validity_loop h rest),
        snd (check_chain_validity_loop h rest))
  else (PBlock (delattr_hash b) :: rest, Ok false).
Proof.
  intros Hh. cbn [check_chain_validity_loop]. rewrite Hh.
  change (previous_hash (delattr_hash b)) with (previous_hash b).
  destruct (is_valid_proof (delattr_hash b) h); cbn [negb orb andb]; [|reflexivity].
  destruct (String.eqb prev (previous_hash b)); cbn [negb]; [|reflexivity].
  rewrite (setattr_delattr_hash b h Hh).
  destruct (check_chain_validity_loop h rest); reflexivity.
Qed.

Lemma check_loop_true (chain : list Block) :
  forall prev : string,
    snd (check_chain_validity_loop prev (map PBlock chain)) = Ok true
    <-> walk_valid prev chain.
Proof.
  induction chain as [|b rest IH]; intros prev.
  - simpl. split; [intros _; apply walk_valid_nil | reflexivity].
  - rewrite walk_valid_cons. cbn [map].
    destruct (hash b) as [h|] eqn:Hh.
    + rewrite (check_loop_block prev h b _ Hh).
      destruct (is_valid_proof (delattr_hash b) h) eqn:Ev; cbn [andb].
      * destruct (String.eqb prev (previous_hash b)) eqn:Ep; cbn [snd].
        -- apply String.eqb_eq in Ep. rewrite IH. split.
           ++ intros Hw. exists h. auto.
           ++ intros (h' & [= <-] & _ & _ & Hw). exact Hw.
        -- apply String.eqb_neq in Ep. split; [discriminate|].
           intros (h' & _ & Hp & _). congruence.
      * cbn [snd]. split; [discriminate|].
        intros (h' & [= <-] & _ & Hv & _). congruence.
    + cbn [check_chain_validity_loop]. rewrite Hh. cbn [snd].
      split; [discriminate|]. intros (h' & Hh' & _). discriminate Hh'.
Qed.

(** When every block passes, each hash is put back: the list is as before. *)
Lemma check_loop_true_state (chain : list Block) :
  forall prev : string,
    snd (check_chain_validity_loop prev (map PBlock chain)) = Ok true ->
    fst (check_chain_validity_loop prev (map PBlock chain)) = map PBlock chain.
Proof.
  induction chain as [|b rest IH]; intros prev; [reflexivity|].
  cbn [map]. destruct (hash b) as [h|] eqn:Hh.
  - rewrite (check_loop_block prev h b _ Hh).
    destruct (is_valid_proof (delattr_hash b) h && String.eqb prev (previous_hash b));
      cbn [fst snd]; [|discriminate].
    intros H. rewrite (IH h H). reflexivity.
  - cbn [check_chain_validity_loop]. rewrite Hh. discriminate.
Qed.

(** The loop stops at a failing block: nothing after it is read or
    changed, whatever it is. *)
Lemma check_loop_stops (pre : list Block) :
  forall (prev h : string) (b : Block) (post : list pyobj),
    walk_valid prev pre ->
    hash b = Some h ->
    is_valid_proof (delattr_hash b) h = false
    \/ expected_previous prev pre (List.length pre) <> Some (previous_hash b) ->
    check_chain_validity_loop prev (map PBlock pre ++ PBlock b :: post)
    = (map PBlock pre ++ PBlock (delattr_hash b) :: post, Ok false).
Proof.
  induction pre as [|p pre IH]; intros prev h b post Hpre Hh Hfail.
  - cbn [map app]. rewrite (check_loop_block prev h b post Hh).
    destruct Hfail as [Hv | Hp].
    + rewrite Hv. reflexivity.
    + destruct (String.eqb prev (previous_hash b)) eqn:Ep.
      * apply String.eqb_eq in Ep. simpl in Hp. congruence.
      * rewrite andb_false_r. reflexivity.
  - apply walk_valid_cons in Hpre. destruct Hpre as (hp & Hhp & Hpp & Hvp & Hrest).
    cbn [map app]. rewrite (check_loop_block prev hp p _ Hhp).
    rewrite Hvp, <- Hpp, String.eqb_refl. cbn [andb].
    cbn [List.length] in Hfail.
    rewrite (expected_previous_cons prev hp p pre _ Hhp) in Hfail.
    rewrite (IH hp h b post Hrest Hh Hfail). reflexivity.
Qed.

(** When the loop returns false, it stopped at some block: the blocks
    before it passed and are as they were, that block has lost its hash, the
    blocks after it are untouched. *)
Lemma check_loop_false (chain : list Block) :
  forall (prev : string) (chain' : list pyobj),
    check_chain_validity_loop prev (map PBlock chain) = (chain', Ok false) ->
    exists (pre : list Block) (b : Block) (post : list Block) (h : string),
      chain = pre ++ b :: post
      /\ hash b = Some h
      /\ walk_valid prev pre
      /\ (is_valid_proof (delattr_hash b) h = false
          \/ expected_previous prev chain (List.length pre) <> Some (previous_hash b))
      /\ chain' = map PBlock (pre ++ delattr_hash b :: post).
Proof.
  induction chain as [|b rest IH]; intros prev chain'; [discriminate|].
  cbn [map]. destruct (hash b) as [h|] eqn:Hh.
  - rewrite (check_loop_block prev h b _ Hh).
    destruct (is_valid_proof (delattr_hash b) h) eqn:Ev; cbn [andb].
    + destruct (String.eqb prev (previous_hash b)) eqn:Ep.
      * destruct (check_chain_validity_loop h (map PBlock rest)) as [rest' r] eqn:El.
        cbn [fst snd]. intros [= <- ->].
        destruct (IH h rest' El) as (pre & b' & post & h' & -> & Hh' & Hpre & Hfail & ->).
        exists (b :: pre), b', post, h'.
        apply String.eqb_eq in Ep.
        repeat split; auto.
        -- apply walk_valid_cons. exists h. auto.
        -- cbn [List.length app].
           rewrite (expected_previous_cons prev h b _ _ Hh). exact Hfail.
      * intros [= <-]. exists [], b, rest, h.
        apply String.eqb_neq in Ep.
        repeat split; auto using walk_valid_nil.
        right. simpl. congruence.
    + intros [= <-]. exists [], b, rest, h.
      repeat split; auto using walk_valid_nil.
  - cbn [check_chain_validity_loop]. rewrite Hh. discriminate.
Qed.

(** C4: [check_chain_validity] returns true exactly when, starting from the
    expected hash "0", every block names its predecessor's stored hash and
    its own stored hash is a valid proof of the block (the first block
    included); and it stops at the first block that fails, returning false
    whatever comes after it. *)
Theorem check_chain_validity_spec (chain : list Block) :
  (snd (check_chain_validity (map PBlock chain)) = Ok true <-> chain_valid chain)
  /\
  (chain_valid chain ->
   forall (b : Block) (h : string) (post : list pyobj),
     hash b = Some h ->
     is_valid_proof (delattr_hash b) h = false
     \/ expected_previous "0" chain (List.length chain) <> Some (previous_hash b) ->
     check_chain_validity (map PBlock chain ++ PBlock b :: post)
     = (map PBlock chain ++ PBlock (delattr_hash b) :: post, Ok false)).
Proof.
  split.
  - apply check_loop_true.
  - intros Hvalid b h post Hh Hfail.
    apply (check_loop_stops chain "0" h b post Hvalid Hh Hfail).
Qed.

Lemma check_chain_validity_spec_witness :
  chain_valid [Samples.first99; Samples.second]
  /\ check_chain_validity
       (map PBlock [Samples.first99; Samples.second]
        ++ PBlock Samples.block1 :: [PDict Samples.genesis_data])
     = (map PBlock [Samples.first99; Samples.second]
        ++ PBlock (delattr_hash Samples.block1) :: [PDict Samples.genesis_data],
        Ok false).
Proof.
  assert (Hvalid : chain_valid [Samples.first99; Samples.second]).
  { apply (proj1 (check_chain_validity_spec [Samples.first99; Samples.second])).
    vm_compute. reflexivity. }
  split; [exact Hvalid|].
  apply (proj2 (check_chain_validity_spec [Samples.first99; Samples.second])
           Hvalid Samples.block1 Samples.block1_hash).
  - reflexivity.
  - right. vm_compute. discriminate.
Defined.

(** ** check_chain_validity on shared objects *)

Lemma store_set_same (store : list Block) :
  forall (a : nat) (b : Block), nth_error store a = Some b -> store_set store a b = store.
Proof.
  induction store as [|x store IH]; intros [|a] b H; cbn in *; try discriminate.
  - injection H as ->. reflexivity.
  - rewrite (IH a b H). reflexivity.
Qed.

Lemma store_set_twice (store : list Block) :
  forall (a : nat) (x y : Block),
    store_set (store_set store a x) a y = store_set store a y.
Proof.
  induction store as [|z store IH]; intros [|a] x y; cbn; try reflexivity.
  rewrite IH. reflexivity.
Qed.

Lemma nth_error_store_set_eq (store : list Block) :
  forall (a : nat) (x b : Block),
    nth_error store a = Some x -> nth_error (store_set store a b) a = Some b.
Proof.
  induction store as [|z store IH]; intros [|a] x b H; cbn in *; try discriminate.
  - reflexivity.
  - apply (IH a x b H).
Qed.

Lemma nth_error_store_set_neq (store : list Block) :
  forall (a a' : nat) (b : Block),
    a' <> a -> nth_error (store_set store a b) a' = nth_error store a'.
Proof.
  induction store as [|z store IH]; intros [|a] [|a'] b H; cbn; try reflexivity.
  - contradiction.
  - apply IH. intros ->. apply H. reflexivity.
Qed.

(** One iteration on an object that has its hash: a block that passes gets
    its hash back, so the store is as before. *)
Lemma check_heap_step (prev h : string) (store : list Block) (a : nat)
    (rest : list nat) (b : Block) :
  nth_error store a = Some b ->
  hash b = Some h ->
  check_chain_validity_heap_loop prev store (a :: rest) =
  if is_valid_proof (delattr_hash b) h && String.eqb prev (previous_hash b)
  then check_chain_validity_heap_loop h store rest
  else (store_set store a (delattr_hash b), Ok false).
Proof.
  intros Ha Hh. cbn [check_chain_validity_heap_loop]. rewrite Ha, Hh.
  change (previous_hash (delattr_hash b)) with (previous_hash b).
  destruct (is_valid_proof (delattr_hash b) h); cbn [negb orb andb]; [|reflexivity].
  destruct (String.eqb prev (previous_hash b)); cbn [negb]; [|reflexivity].
  rewrite store_set_twice, (setattr_delattr_hash b h Hh), (store_set_same store a b Ha).
  reflexivity.
Qed.

(** The flag is the one the walk gives on the blocks the positions hold. *)
Lemma check_heap_flag (chain : list nat) :
  forall (blocks : list Block) (prev : string) (store : list Block),
    map (nth_error store) chain = map Some blocks ->
    snd (check_chain_validity_heap_loop prev store chain)
    = snd (check_chain_validity_loop prev (map PBlock blocks)).
Proof.
  induction chain as [|a chain IH]; intros [|b blocks] prev store Hm;
    try discriminate Hm; [reflexivity|].
  cbn [map] in Hm. injection Hm as Ha Hm.
  destruct (hash b) as [h|] eqn:Hh.
  - rewrite (check_heap_step prev h store a chain b Ha Hh).
    cbn [map]. rewrite (check_loop_block prev h b _ Hh).
    destruct (is_valid_proof (delattr_hash b) h && String.eqb prev (previous_hash b));
      [|reflexivity].
    cbn [snd]. apply IH. exact Hm.
  - cbn [check_chain_validity_heap_loop map check_chain_validity_loop].
    rewrite Ha, Hh. reflexivity.
Qed.

Lemma check_heap_stops (pre : list nat) :
  forall (bpre : list Block) (prev h : string) (store : list Block)
         (a : nat) (post : list nat) (b : Block),
    map (nth_error store) pre = map Some bpre ->
    nth_error store a = Some b ->
    walk_valid prev bpre ->
    hash b = Some h ->
    is_valid_proof (delattr_hash b) h = false
    \/ expected_previous prev bpre (List.length bpre) <> Some (previous_hash b) ->
    check_chain_validity_heap_loop prev store (pre ++ a :: post)
    = (store_set store a (delattr_hash b), Ok false).
Proof.
  induction pre as [|a0 pre IH]; intros [|b0 bpre] prev h store a post b Hm Ha Hpre Hh Hfail;
    try discriminate Hm.
  - cbn [app]. rewrite (check_heap_step prev h store a post b Ha Hh).
    destruct Hfail as [Hv | Hp].
    + rewrite Hv. reflexivity.
    + destruct (String.eqb prev (previous_hash b)) eqn:Ep.
      * apply String.eqb_eq in Ep. simpl in Hp. congruence.
      * rewrite andb_false_r. reflexivity.
  - cbn [map] in Hm. injection Hm as Ha0 Hm.
    apply walk_valid_cons in Hpre. destruct Hpre as (h0 & Hh0 & Hp0 & Hv0 & Hrest).
    cbn [app]. rewrite (check_heap_step prev h0 store a0 _ b0 Ha0 Hh0).
    rewrite Hv0, <- Hp0, String.eqb_refl. cbn [andb].
    cbn [List.length] in Hfail.
    rewrite (expected_previous_cons prev h0 b0 bpre _ Hh0) in Hfail.
    apply (IH bpre h0 h store a post b); assumption.
Qed.

Lemma check_heap_true_store (chain : list nat) :
  forall (blocks : list Block) (prev : string) (store : list Block),
    map (nth_error store) chain = map Some blocks ->
    snd (check_chain_validity_heap_loop prev store chain) = Ok true ->
    fst (check_chain_validity_heap_loop prev store chain) = store.
Proof.
  induction chain as [|a chain IH]; intros [|b blocks] prev store Hm;
    try discriminate Hm; [reflexivity|].
  cbn [map] in Hm. injection Hm as Ha Hm.
  destruct (hash b) as [h|] eqn:Hh.
  - rewrite (check_heap_step prev h store a chain b Ha Hh).
    destruct (is_valid_proof (delattr_hash b) h && String.eqb prev (previous_hash b));
      [|discriminate].
    apply (IH blocks). exact Hm.
  - cbn [check_chain_validity_heap_loop]. rewrite Ha, Hh. discriminate.
Qed.

Lemma app_same_length (A : Type) (l1 : list A) :
  forall l2 r1 r2 : list A,
    List.length l1 = List.length r1 ->
    l1 ++ l2 = r1 ++ r2 -> l1 = r1 /\ l2 = r2.
Proof.
  induction l1 as [|x l1 IH]; intros l2 [|y r1] r2 Hlen H; try discriminate Hlen.
  - split; [reflexivity | exact H].
  - cbn in Hlen, H. injection H as -> H. injection Hlen as Hlen.
    destruct (IH l2 r1 r2 Hlen H) as [-> ->]. split; reflexivity.
Qed.

Lemma expected_previous_app (first : string) (pre l : list Block) :
  expected_previous first (pre ++ l) (List.length pre)
  = expected_previous first pre (List.length pre).
Proof.
  destruct (List.length pre) as [|n] eqn:E; [reflexivity|].
  cbn [expected_previous]. rewrite nth_error_app1 by lia. reflexivity.
Qed.

Lemma check_heap_false (chain : list nat) (blocks : list Block) (prev : string)
    (store store' : list Block) :
  map (nth_error store) chain = map Some blocks ->
  check_chain_validity_heap_loop prev store chain = (store', Ok false) ->
  exists pre a post bpre b bpost h,
    chain = pre ++ a :: post
    /\ blocks = bpre ++ b :: bpost
    /\ map (nth_error store) pre = map Some bpre
    /\ nth_error store a = Some b
    /\ walk_valid prev bpre
    /\ hash b = Some h
    /\ (is_valid_proof (delattr_hash b) h = false
        \/ expected_previous prev bpre (List.length bpre) <> Some (previous_hash b))
    /\ store' = store_set store a (delattr_hash b).
Proof.
  intros Hm H.
  pose proof (check_heap_flag chain blocks prev store Hm) as Hflag.
  rewrite H in Hflag. cbn [snd] in Hflag.
  destruct (check_chain_validity_loop prev (map PBlock blocks)) as [objs r] eqn:El.
  cbn [snd] in Hflag. subst r.
  destruct (check_loop_false blocks prev objs El)
    as (bpre & b & bpost & h & Hb & Hh & Hpre & Hfail & _).
  subst blocks. rewrite expected_previous_app in Hfail.
  rewrite map_app in Hm. cbn [map] in Hm.
  apply map_eq_app in Hm. destruct Hm as (pre & l2 & -> & Hmpre & Hm2).
  apply map_eq_cons in Hm2. destruct Hm2 as (a & post & -> & Ha & _).
  exists pre, a, post, bpre, b, bpost, h.
  repeat split; auto.
  rewrite (check_heap_stops pre bpre prev h store a post b Hmpre Ha Hpre Hh Hfail) in H.
  injection H as <-. reflexivity.
Qed.

(** C10, as stated, fails when the list holds the same object twice: on
    the list [b, b] the walk passes the first position and stops at the
    second, and the [delattr] there leaves the block at the first position,
    the same object, without its hash. *)
Lemma check_chain_validity_heap_aliased :
  ~ (forall (store store' : list Block) (pre : list nat) (a : nat) (post : list nat),
       snd (check_chain_validity_heap store pre) = Ok true ->
       snd (check_chain_validity_heap store (pre ++ [a])) = Ok false ->
       check_chain_validity_heap store (pre ++ a :: post) = (store', Ok false) ->
       forall a', In a' pre -> nth_error store' a' = nth_error store a').
Proof.
  intros H.
  specialize (H [Samples.first99] [delattr_hash Samples.first99]
                [0%nat] 0%nat []
                ltac:(vm_compute; reflexivity)
                ltac:(vm_compute; reflexivity)
                ltac:(vm_compute; reflexivity)
                0%nat (or_introl eq_refl)).
  discriminate H.
Qed.

(** C10, amended: [check_chain_validity] changes the objects it is given.
    On a list whose blocks up to some position all pass and whose block at
    that position fails, it returns false and leaves that block object
    without its [hash] attribute; every other object is as it was, so on a
    list of distinct objects the blocks before it have their hash as before
    and the blocks after it are untouched.  Every call that returns false
    is of this kind, and a call that returns true leaves every object as it
    was. *)
Theorem check_chain_validity_heap_mutates (store : list Block) (chain : list nat)
    (blocks : list Block) :
  map (nth_error store) chain = map Some blocks ->
  (forall pre a post bpre b bpost h,
     chain = pre ++ a :: post ->
     blocks = bpre ++ b :: bpost ->
     List.length pre = List.length bpre ->
     chain_valid bpre ->
     hash b = Some h ->
     is_valid_proof (delattr_hash b) h = false
     \/ expected_previous "0" bpre (List.length bpre) <> Some (previous_hash b) ->
     check_chain_validity_heap store chain
     = (store_set store a (delattr_hash b), Ok false)
     /\ nth_error (store_set store a (delattr_hash b)) a = Some (delattr_hash b)
     /\ hash (delattr_hash b) = None
     /\ (forall a', a' <> a ->
           nth_error (store_set store a (delattr_hash b)) a' = nth_error store a')
     /\ (NoDup chain ->
         forall a', In a' pre \/ In a' post ->
           nth_error (store_set store a (delattr_hash b)) a' = nth_error store a'))
  /\
  (forall store',
     check_chain_validity_heap store chain = (store', Ok false) ->
     exists pre a post bpre b bpost h,
       chain = pre ++ a :: post
       /\ blocks = bpre ++ b :: bpost
       /\ List.length pre = List.length bpre
       /\ chain_valid bpre
       /\ hash b = Some h
       /\ (is_valid_proof (delattr_hash b) h = false
           \/ expected_previous "0" bpre (List.length bpre) <> Some (previous_hash b))
       /\ store' = store_set store a (delattr_hash b))
  /\
  (forall store',
     check_chain_validity_heap store chain = (store', Ok true) -> store' = store).
Proof.
  intros Hm. unfold check_chain_validity_heap, chain_valid. split; [|split].
  - intros pre a post bpre b bpost h Hc Hb Hlen Hpre Hh Hfail. subst chain blocks.
    rewrite !map_app in Hm. cbn [map] in Hm.
    apply app_same_length in Hm.
    + destruct Hm as (Hmpre & Ha). injection Ha as Ha _.
      assert (Hnoneq : forall a', a' <> a ->
                nth_error (store_set store a (delattr_hash b)) a' = nth_error store a')
        by (intros a' Hne; apply nth_error_store_set_neq; exact Hne).
      split; [apply (check_heap_stops pre bpre "0" h); assumption|].
      split; [apply (nth_error_store_set_eq store a b); exact Ha|].
      split; [reflexivity|]. split; [exact Hnoneq|].
      intros Hnd a' Hin. apply Hnoneq. intros ->.
      apply NoDup_remove_2 in Hnd. apply Hnd. apply in_or_app. exact Hin.
    + rewrite !length_map. exact Hlen.
  - intros store' H.
    destruct (check_heap_false chain blocks "0" store store' Hm H)
      as (pre & a & post & bpre & b & bpost & h & Hc & Hb & Hmpre & Ha & Hpre & Hh & Hfail & Hs).
    exists pre, a, post, bpre, b, bpost, h. repeat split; auto.
    apply (f_equal (@List.length _)) in Hmpre. rewrite !length_map in Hmpre. exact Hmpre.
  - intros store' H. pose proof (check_heap_true_store chain blocks "0" store Hm) as Hs.
    rewrite H in Hs. apply (Hs eq_refl).
Qed.

Lemma check_chain_validity_heap_mutates_witness :
  check_chain_validity_heap
    [Samples.first99; Samples.block1; Samples.second] [0; 1; 2]%nat
  = ([Samples.first99; delattr_hash Samples.block1; Samples.second], Ok false)
  /\ nth_error [Samples.first99; delattr_hash Samples.block1; Samples.second] 1
     = Some (delattr_hash Samples.block1).
Proof.
  destruct (proj1 (check_chain_validity_heap_mutates
                     [Samples.first99; Samples.block1; Samples.second] [0; 1; 2]%nat
                     [Samples.first99; Samples.block1; Samples.second] eq_refl)
              [0%nat] 1%nat [2%nat] [Samples.first99] Samples.block1 [Samples.second]
              Samples.block1_hash eq_refl eq_refl eq_refl
              ltac:(apply (check_loop_true [Samples.first99] "0"); vm_compute; reflexivity)
              eq_refl
              ltac:(right; vm_compute; discriminate))
    as (Hres & Hat & _).
  split; [exact Hres | exact Hat].
Defined.

(** ** create_chain_from_dump *)

Lemma add_dumped_blocks_accepts (rest : list BlockData) :
  forall (bc : Blockchain) (head : Block) (prev : string),
    last_block bc = Ok head ->
    hash head = Some prev ->
    (dump_accepted prev rest
     /\ add_dumped_blocks bc rest
        = Ok (mkBlockchain (unconfirmed_data bc) (chain bc ++ map stored_block rest)))
    \/
    (~ dump_accepted prev rest
     /\ add_dumped_blocks bc rest = Raise (Exception "The chain dump is tampered!!")).
Proof.
  induction rest as [|bd rest IH]; intros bc head prev Hlast Hhead.
  - left. split; [exact I|]. destruct bc as [pool c]. cbn. rewrite app_nil_r. reflexivity.
  - cbn [add_dumped_blocks dump_accepted].
    rewrite (add_block_unfold bc head (block_of_data bd) prev (bd_hash bd) Hlast Hhead).
    change (block_of_data bd) with (raw_block bd).
    change (previous_hash (raw_block bd)) with (bd_previous_hash bd).
    destruct (String.eqb prev (bd_previous_hash bd)) eqn:Ep; cbn [andb].
    + apply String.eqb_eq in Ep.
      destruct (is_valid_proof (raw_block bd) (bd_hash bd)) eqn:Ev; cbn [bind negb].
      * apply is_valid_proof_iff in Ev. destruct Ev as [Hz Hd].
        assert (Hentry : entry_accepted prev bd) by (repeat split; auto).
        change (setattr_hash (bd_hash bd) (raw_block bd)) with (stored_block bd).
        destruct (IH (mkBlockchain (unconfirmed_data bc) (chain bc ++ [stored_block bd]))
                     (stored_block bd) (bd_hash bd)
                     (last_block_snoc _ _ _) eq_refl) as [[Hacc Hres] | [Hrej Hres]].
        -- left. split; [split; assumption|]. rewrite Hres.
           cbn [chain unconfirmed_data map]. rewrite <- app_assoc. reflexivity.
        -- right. split; [|exact Hres]. intros [_ Hacc]. exact (Hrej Hacc).
      * right. split; [|reflexivity]. intros [(_ & Hz & Hd) _].
        assert (is_valid_proof (raw_block bd) (bd_hash bd) = true)
          by (apply is_valid_proof_iff; split; assumption).
        congruence.
    + cbn [bind negb]. right. split; [|reflexivity]. intros [(Hp & _) _].
      apply String.eqb_neq in Ep. congruence.
Qed.

(** C6: the entries of the dump after the first are rebuilt from their
    fields (index, data, timestamp, previous_hash, nonce) and appended in
    order to a chain that starts from a fresh genesis block, under the
    checks of [add_block]: each entry has to name the hash stored in the
    block before it, and its own hash has to have the leading zeros and be
    the digest of its five fields.  When every entry passes, the chain
    returned is the genesis block followed by one block per entry, holding
    the entry's fields and hash; when one does not, the call raises and no
    chain is returned.  One of the two is always the case. *)
Theorem create_chain_from_dump_spec (chain_dump : list BlockData) :
  (dump_accepted genesis_digest (tl chain_dump) ->
   create_chain_from_dump chain_dump
   = Ok (mkBlockchain []
           (mkBlock 0 [] (JInt 0) "0" 0 (Some genesis_digest)
            :: map stored_block (tl chain_dump))))
  /\
  (~ dump_accepted genesis_digest (tl chain_dump) ->
   create_chain_from_dump chain_dump = Raise (Exception "The chain dump is tampered!!"))
  /\
  (dump_accepted genesis_digest (tl chain_dump)
   \/ ~ dump_accepted genesis_digest (tl chain_dump)).
Proof.
  unfold create_chain_from_dump.
  destruct (add_dumped_blocks_accepts (tl chain_dump)
              (create_genesis_block Blockchain_init) genesis_block genesis_digest
              (last_block_snoc [] [] genesis_block) eq_refl)
    as [[Hacc Hres] | [Hrej Hres]].
  - split; [intros _; exact Hres|]. split; [|left; exact Hacc].
    intros Hn. contradiction.
  - split; [intros Hacc; contradiction|]. split; [|right; exact Hrej].
    intros _. exact Hres.
Qed.

Lemma create_chain_from_dump_spec_witness :
  create_chain_from_dump [Samples.genesis_data; Samples.block1_data]
  = Ok (mkBlockchain []
          [mkBlock 0 [] (JInt 0) "0" 0 (Some Samples.genesis_hash);
           mkBlock 1 [Samples.post] Samples.now Samples.genesis_hash 1
                   (Some Samples.block1_hash)])
  /\ create_chain_from_dump [Samples.genesis_data; Samples.block1_tampered]
     = Raise (Exception "The chain dump is tampered!!").
Proof.
  split.
  - apply (proj1 (create_chain_from_dump_spec
                    [Samples.genesis_data; Samples.block1_data])).
    cbn [tl dump_accepted]. split; [|exact I].
    repeat split; vm_compute; reflexivity.
  - apply (proj1 (proj2 (create_chain_from_dump_spec
                           [Samples.genesis_data; Samples.block1_tampered]))).
    cbn [tl dump_accepted]. intros [(_ & _ & Hd) _].
    vm_compute in Hd. discriminate Hd.
Defined.

(** C6 on two dumps: the chain a peer mined is rebuilt whole; the same
    dump with the data of its second block replaced is refused. *)
Example create_chain_from_dump_honest :
  create_chain_from_dump [Samples.genesis_data; Samples.block1_data]
  = Ok (mkBlockchain [] [genesis_block; Samples.block1]).
Proof. vm_compute. reflexivity. Qed.

Example create_chain_from_dump_tampered :
  create_chain_from_dump [Samples.genesis_data; Samples.block1_tampered]
  = Raise (Exception "The chain dump is tampered!!").
Proof. vm_compute. reflexivity. Qed.

(** ** consensus *)

(** A chain taken from a response holds dictionaries: the first read of
    [block.hash] raises. *)
Lemma check_chain_validity_dicts (l : list BlockData) :
  check_chain_validity (map PDict l)
  = match l with
    | [] => ([], Ok true)
    | _ :: _ => (map PDict l, Raise AttributeError)
    end.
Proof. destruct l; reflexivity. Qed.

Lemma consensus_loop_longest (responses : list (Z * list BlockData)) :
  forall (current_len current_len' : Z) (longest longest' : option (list pyobj)),
    longest = None \/ longest = Some [] ->
    consensus_loop responses current_len longest = Ok (current_len', longest') ->
    longest' = None \/ longest' = Some [].
Proof.
  induction responses as [|[len c] rest IH]; intros cur cur' longest longest' Hl.
  - cbn [consensus_loop]. intros [= _ <-]. exact Hl.
  - cbn [consensus_loop]. destruct (len >? cur); [|apply IH; exact Hl].
    rewrite check_chain_validity_dicts. destruct c as [|d c]; cbn [bind].
    + apply IH. right. reflexivity.
    + discriminate.
Qed.

(** Whenever [consensus] returns, it returns false and the node keeps the
    chain it had. *)
Lemma consensus_never_adopts (blockchain blockchain' : node)
    (responses : list (Z * list BlockData)) (r : bool) :
  consensus blockchain responses = Ok (r, blockchain') ->
  r = false /\ blockchain' = blockchain.
Proof.
  unfold consensus.
  destruct (node_chain_len blockchain) as [cur| |]; cbn [bind]; try discriminate.
  destruct (consensus_loop responses cur None) as [[cur' longest]| |] eqn:E;
    cbn [bind]; try discriminate.
  apply consensus_loop_longest in E; [|left; reflexivity].
  destruct E as [-> | ->]; intros [= <- <-]; auto.
Qed.

(** A first answer that reports more blocks than the node has, with a
    chain that is not empty, makes [consensus] raise. *)
Lemma consensus_raises (bc : Blockchain) (len : Z) (d : BlockData)
    (c : list BlockData) (rest : list (Z * list BlockData)) :
  len > Z.of_nat (List.length (chain bc)) ->
  consensus (NodeBlockchain bc) ((len, d :: c) :: rest) = Raise AttributeError.
Proof.
  intros Hlen. unfold consensus. cbn [node_chain_len bind consensus_loop].
  assert (E : (len >? Z.of_nat (List.length (chain bc))) = true)
    by (apply Z.gtb_lt; lia).
  rewrite E. rewrite check_chain_validity_dicts. reflexivity.
Qed.

(** C5 at a peer that mined one block on top of the genesis block: the
    answer reports two blocks, more than the node's one, and the chain in it
    is rebuilt whole by [create_chain_from_dump]; [consensus] raises instead
    of adopting it.  The same chain given as [Block] objects does not pass
    [check_chain_validity] either, the genesis hash having no leading
    zeros. *)
Theorem consensus_longer_valid_chain :
  2 > Z.of_nat (List.length (chain Samples.node0))
  /\ create_chain_from_dump [Samples.genesis_data; Samples.block1_data]
     = Ok (mkBlockchain [] [genesis_block; Samples.block1])
  /\ consensus (NodeBlockchain Samples.node0)
       [(2, [Samples.genesis_data; Samples.block1_data])]
     = Raise AttributeError
  /\ snd (check_chain_validity (map PBlock [genesis_block; Samples.block1]))
     = Ok false.
Proof. vm_compute. repeat split; reflexivity. Qed.

(** ** Indices along the chain *)

Lemma add_block_returns (self self' : Blockchain) (block : Block) (proof : string)
    (r : bool) :
  add_block self block proof = Ok (r, self') ->
  (r = false /\ self' = self)
  \/ (r = true
      /\ self' = mkBlockchain (unconfirmed_data self)
                              (chain self ++ [setattr_hash proof block])).
Proof.
  unfold add_block.
  destruct (last_block self) as [head| |]; cbn [bind]; try discriminate.
  destruct (getattr_hash head) as [h| |]; cbn [bind]; try discriminate.
  destruct (negb (String.eqb h (previous_hash block))); [intros [= <- <-]; auto|].
  destruct (negb (is_valid_proof block proof)); intros [= <- <-]; auto.
Qed.

Lemma indices_consecutive_snoc (c : list Block) (b : Block) :
  indices_consecutive c ->
  index b = Z.of_nat (List.length c) ->
  indices_consecutive (c ++ [b]).
Proof.
  intros Hc Hb i x Hi.
  destruct (Nat.lt_ge_cases i (List.length c)) as [Hlt | Hge].
  - rewrite nth_error_app1 in Hi by exact Hlt. apply Hc. exact Hi.
  - rewrite nth_error_app2 in Hi by exact Hge.
    destruct (i - List.length c)%nat as [|k] eqn:Ek.
    + injection Hi as <-. rewrite Hb. f_equal. lia.
    + destruct k; discriminate Hi.
Qed.

Lemma indices_consecutive_head (init : list Block) (head : Block) :
  indices_consecutive (init ++ [head]) ->
  index head + 1 = Z.of_nat (List.length (init ++ [head])).
Proof.
  intros H. rewrite (H (List.length init) head).
  - rewrite length_app. cbn [List.length]. lia.
  - rewrite nth_error_app2 by lia. rewrite Nat.sub_diag. reflexivity.
Qed.

(** C8, as stated, fails: [/add_block] does not look at the index.  On top
    of the genesis block the node accepts a block with index 5. *)
Lemma reachable_stray_index :
  ~ (forall self : Blockchain,
       reachable any_block self -> indices_consecutive (chain self)).
Proof.
  intros H.
  assert (Hr : reachable any_block
                 (mkBlockchain [] [genesis_block;
                                   setattr_hash Samples.stray_hash Samples.stray])).
  { apply (reach_add_block any_block Samples.node0 genesis_block
             Samples.stray_data true).
    - apply reach_genesis.
    - reflexivity.
    - exact I.
    - vm_compute. reflexivity. }
  specialize (H _ Hr 1%nat (setattr_hash Samples.stray_hash Samples.stray) eq_refl).
  discriminate H.
Qed.

(** C8, amended: on every chain reachable from the genesis block by
    [add_new_data], [mine], [consensus] and by [add_block] of blocks whose
    index is the head's index plus one, the block at position i has index
    i. *)
Theorem reachable_indices (self : Blockchain) :
  reachable next_index self -> indices_consecutive (chain self).
Proof.
  induction 1 as [ | self d _ IH | self fuel now r self' _ IH Hmine
                   | self head bd r self' _ IH Hlast Hadm Hadd
                   | self responses r self' _ IH Hcons ].
  - intros [|[|i]] b Hi; try discriminate Hi.
    injection Hi as <-. reflexivity.
  - exact IH.
  - apply mine_returns in Hmine.
    destruct Hmine as [(_ & _ & ->) | (_ & _ & head & h & cand & proof & Hl & _ & Hp & ->)];
      [exact IH|].
    cbn [chain]. apply indices_consecutive_snoc; [exact IH|].
    apply proof_of_work_loop_spec in Hp. destruct Hp as (k & _ & -> & _).
    cbn [index setattr_hash setattr_nonce Block_init].
    apply last_block_inv in Hl. destruct Hl as (init & Hc).
    rewrite Hc in IH |- *. apply indices_consecutive_head. exact IH.
  - apply add_block_returns in Hadd. destruct Hadd as [(_ & ->) | (_ & ->)]; [exact IH|].
    cbn [chain]. apply indices_consecutive_snoc; [exact IH|].
    cbn [index setattr_hash block_of_data Block_init]. rewrite Hadm.
    apply last_block_inv in Hlast. destruct Hlast as (init & Hc).
    rewrite Hc in IH |- *. apply indices_consecutive_head. exact IH.
  - apply consensus_never_adopts in Hcons. destruct Hcons as [_ [= ->]]. exact IH.
Qed.

Lemma reachable_indices_witness :
  indices_consecutive [genesis_block; Samples.block1].
Proof.
  apply (reachable_indices (mkBlockchain [] [genesis_block; Samples.block1])).
  apply (reach_mine next_index (add_new_data Samples.node0 Samples.post)
           3%nat Samples.now true).
  - apply reach_new_data. apply reach_genesis.
  - vm_compute. reflexivity.
Defined.

(** ** Stored hashes and later changes *)

(** A block that was appended keeps its proof in [hash], and the digest
    then covers that attribute too: the stored hash is a valid proof of the
    block only once the attribute is deleted. *)
Example appended_block_digest :
  is_valid_proof (delattr_hash Samples.block1) Samples.block1_hash = true
  /\ is_valid_proof Samples.block1 Samples.block1_hash = false.
Proof. vm_compute. split; reflexivity. Qed.

(** Replacing the data of that block: the stored hash is no longer a valid
    proof, with or without the attribute. *)
Example tampered_block_digest :
  is_valid_proof (appended Samples.block1_tampered) Samples.block1_hash = false
  /\ is_valid_proof (block_of_data Samples.block1_tampered) Samples.block1_hash
     = false.
Proof. vm_compute. split; reflexivity. Qed.

(** * Further properties of the node *)

(** ** The chains a node builds *)

Lemma genesis_block_hash_attr : hash genesis_block = Some genesis_digest.
Proof. reflexivity. Qed.

Lemma delattr_setattr_hash (b : Block) (h : string) :
  hash b = None -> delattr_hash (setattr_hash h b) = b.
Proof. destruct b as [i d t p n o]; simpl; intros ->; reflexivity. Qed.

Lemma walk_valid_snoc (rest : list Block) :
  forall (first h : string) (b : Block),
    walk_valid first rest ->
    hash b = Some h ->
    expected_previous first rest (List.length rest) = Some (previous_hash b) ->
    is_valid_proof (delattr_hash b) h = true ->
    walk_valid first (rest ++ [b]).
Proof.
  induction rest as [|x rest IH]; intros first h b Hrest Hh He Hv.
  - cbn [app]. apply walk_valid_cons. exists h. injection He as He.
    repeat split; auto using walk_valid_nil.
  - apply walk_valid_cons in Hrest. destruct Hrest as (hx & Hhx & Hpx & Hvx & Hrest).
    cbn [List.length] in He. rewrite (expected_previous_cons first hx x rest _ Hhx) in He.
    cbn [app]. apply walk_valid_cons. exists hx. repeat split; auto.
    apply (IH hx h b); assumption.
Qed.

(** The last block of such a chain carries the hash the next block has to
    name. *)
Lemma node_chain_last (rest : list Block) (pool : list json) :
  walk_valid genesis_digest rest ->
  exists head h,
    last_block (mkBlockchain pool (genesis_block :: rest)) = Ok head
    /\ hash head = Some h
    /\ expected_previous genesis_digest rest (List.length rest) = Some h.
Proof.
  intros Hrest. destruct (rev rest) as [|x l] eqn:E; unrev E rest.
  - exists genesis_block, genesis_digest.
    split; [apply (last_block_snoc pool [] genesis_block) | split; reflexivity].
  - cbn [rev] in *.
    destruct (Hrest (List.length (rev l)) x) as (hx & Hhx & _).
    { rewrite nth_error_app2 by lia. rewrite Nat.sub_diag. reflexivity. }
    exists x, hx. repeat split; auto.
    + apply (last_block_snoc pool (genesis_block :: rev l) x).
    + rewrite length_app. cbn [List.length]. rewrite Nat.add_1_r.
      cbn [expected_previous]. rewrite nth_error_app2 by lia.
      rewrite Nat.sub_diag. exact Hhx.
Qed.

Lemma node_chain_extend (self : Blockchain) (head block : Block) (h proof : string) :
  node_chain (chain self) ->
  last_block self = Ok head ->
  hash head = Some h ->
  hash block = None ->
  previous_hash block = h ->
  is_valid_proof block proof = true ->
  node_chain (chain self ++ [setattr_hash proof block]).
Proof.
  intros (rest & Hc & Hrest) Hlast Hh Hnone Hp Hv.
  destruct (node_chain_last rest (unconfirmed_data self) Hrest)
    as (head' & h' & Hlast' & Hh' & He).
  destruct self as [pool c]. cbn [chain unconfirmed_data] in *. subst c.
  rewrite Hlast in Hlast'. injection Hlast' as <-.
  rewrite Hh in Hh'. injection Hh' as <-.
  exists (rest ++ [setattr_hash proof block]). split; [reflexivity|].
  apply (walk_valid_snoc rest genesis_digest proof); auto.
  - rewrite He. cbn [previous_hash setattr_hash]. congruence.
  - rewrite (delattr_setattr_hash block proof Hnone). exact Hv.
Qed.

(** What an accepted block satisfied. *)
Lemma add_block_accepted (self self' : Blockchain) (head block : Block)
    (h proof : string) :
  last_block self = Ok head ->
  hash head = Some h ->
  add_block self block proof = Ok (true, self') ->
  previous_hash block = h
  /\ is_valid_proof block proof = true
  /\ self' = mkBlockchain (unconfirmed_data self)
                          (chain self ++ [setattr_hash proof block]).
Proof.
  intros Hlast Hh. rewrite (add_block_unfold self head block h proof Hlast Hh).
  destruct (String.eqb h (previous_hash block)) eqn:Ep; cbn [andb]; [|discriminate].
  destruct (is_valid_proof block proof); [|discriminate].
  intros [= <-]. apply String.eqb_eq in Ep. auto.
Qed.

Lemma node_chain_of_reachable (self : Blockchain) :
  reachable any_block self -> node_chain (chain self).
Proof.
  induction 1 as [ | self d _ IH | self fuel now r self' _ IH Hmine
                   | self head bd r self' _ IH Hlast _ Hadd
                   | self responses r self' _ IH Hcons ].
  - exists []. split; [reflexivity | apply walk_valid_nil].
  - exact IH.
  - apply mine_returns in Hmine.
    destruct Hmine as [(_ & _ & ->) | (_ & _ & head & h & cand & proof & Hl & Hh & Hp & ->)];
      [exact IH|].
    cbn [chain]. apply proof_of_work_loop_spec in Hp.
    destruct Hp as (k & _ & Hb & Hd & Hm & _).
    apply (node_chain_extend self head cand h proof); auto.
    + rewrite Hb. reflexivity.
    + rewrite Hb. reflexivity.
    + apply is_valid_proof_iff. split; assumption.
  - destruct IH as (rest & Hc & Hrest).
    destruct (node_chain_last rest (unconfirmed_data self) Hrest)
      as (head' & h & Hlast' & Hh & _).
    assert (Hself : mkBlockchain (unconfirmed_data self) (genesis_block :: rest) = self)
      by (destruct self; cbn [chain unconfirmed_data] in *; subst; reflexivity).
    rewrite Hself in Hlast'. rewrite Hlast in Hlast'. injection Hlast' as <-.
    destruct r.
    + destruct (add_block_accepted self self' head _ h _ Hlast Hh Hadd)
        as (Hp & Hv & ->).
      cbn [chain]. apply (node_chain_extend self head _ h); auto.
      exists rest. auto.
    + apply add_block_returns in Hadd.
      destruct Hadd as [(_ & ->) | (Hr & _)]; [|discriminate Hr].
      exists rest. auto.
  - apply consensus_never_adopts in Hcons. destruct Hcons as [_ [= ->]]. exact IH.
Qed.

Lemma sample_reachable :
  reachable any_block (mkBlockchain [] [genesis_block; Samples.block1]).
Proof.
  apply (reach_mine any_block (add_new_data Samples.node0 Samples.post)
           3%nat Samples.now true).
  - apply reach_new_data. apply reach_genesis.
  - vm_compute. reflexivity.
Defined.

(** X1: every chain a node reaches starts with the genesis block, and each
    later block names the stored hash of the block before it and stores a
    hash that has the leading zeros and is the digest of its own fields. *)
Theorem reachable_node_chain (self : Blockchain) :
  reachable any_block self -> node_chain (chain self).
Proof. exact (node_chain_of_reachable self). Qed.

Lemma reachable_node_chain_witness :
  node_chain [genesis_block; Samples.block1].
Proof.
  exact (reachable_node_chain (mkBlockchain [] [genesis_block; Samples.block1])
           sample_reachable).
Defined.

(** With index and nonce integers and the hashes strings, nothing in
    [add_block] or [mine] raises on a chain a node reaches. *)
Lemma reachable_raises_nothing (self : Blockchain) :
  reachable any_block self ->
  forall (e : exn),
    (forall block proof, add_block self block proof <> Raise e)
    /\ (forall fuel now, mine fuel now self <> Raise e).
Proof.
  intros Hr e. apply node_chain_of_reachable in Hr.
  destruct Hr as (rest & Hc & Hrest).
  destruct (node_chain_last rest (unconfirmed_data self) Hrest)
    as (head & h & Hlast & Hh & _).
  assert (Hself : mkBlockchain (unconfirmed_data self) (genesis_block :: rest) = self)
    by (destruct self; cbn [chain unconfirmed_data] in *; subst; reflexivity).
  rewrite Hself in Hlast. split.
  - intros block proof. rewrite (add_block_unfold self head block h proof Hlast Hh).
    destruct (String.eqb h (previous_hash block) && is_valid_proof block proof);
      discriminate.
  - intros fuel now. unfold mine.
    destruct (unconfirmed_data self) as [|d pool] eqn:Epool; [discriminate|].
    rewrite Hlast. cbn [bind]. unfold getattr_hash. rewrite Hh. cbn [bind].
    destruct (proof_of_work fuel (Block_init (index head + 1) (d :: pool) now h 0))
      as [[cand proof]| |] eqn:Epow; cbn [bind].
    + rewrite <- Epool in Epow.
      rewrite (mined_candidate_accepted self head cand h proof fuel now Hlast Hh Epow).
      discriminate.
    + exfalso. unfold proof_of_work in Epow. revert Epow.
      generalize (setattr_nonce 0 (Block_init (index head + 1) (d :: pool) now h 0)).
      induction fuel as [|fuel IHf]; intros b; cbn [proof_of_work_loop];
        destruct (startswith (compute_hash b) (str_mul "0" difficulty));
        try discriminate. apply IHf.
    + discriminate.
Qed.

(** X2: on every chain a node reaches through requests whose fields have
    the types a node sends (integer index and nonce, string hashes), the
    chain is not empty and its last block has its hash attribute, so that
    neither [add_block] nor [mine] raises [IndexError], from [chain[-1]], or
    [AttributeError], from reading [last_block.hash]. *)
Theorem reachable_no_exception (self : Blockchain) :
  reachable any_block self ->
  (exists head h, last_block self = Ok head /\ hash head = Some h)
  /\ forall block proof fuel now,
       add_block self block proof <> Raise IndexError
       /\ add_block self block proof <> Raise AttributeError
       /\ mine fuel now self <> Raise IndexError
       /\ mine fuel now self <> Raise AttributeError.
Proof.
  intros Hr. split.
  - apply node_chain_of_reachable in Hr. destruct Hr as (rest & Hc & Hrest).
    destruct (node_chain_last rest (unconfirmed_data self) Hrest)
      as (head & h & Hlast & Hh & _).
    exists head, h. split; [|exact Hh].
    destruct self as [pool c]. cbn [chain unconfirmed_data] in *. subst c. exact Hlast.
  - intros block proof fuel now.
    pose proof (reachable_raises_nothing self Hr IndexError) as [Ha1 Hm1].
    pose proof (reachable_raises_nothing self Hr AttributeError) as [Ha2 Hm2].
    repeat split; auto.
Qed.

Lemma reachable_no_exception_witness :
  exists head h,
    last_block (mkBlockchain [] [genesis_block; Samples.block1]) = Ok head
    /\ hash head = Some h.
Proof.
  exact (proj1 (reachable_no_exception
                  (mkBlockchain [] [genesis_block; Samples.block1])
                  sample_reachable)).
Defined.

(** ** What the operations leave in place *)

(** X3: [add_block] and [mine] only ever append: the chain after the call
    is the chain before it followed by one block when the call returns true,
    by none when it returns false; [add_block] leaves the pending pool as it
    was, accepted block or not. *)
Theorem operations_append_only (self self' : Blockchain) (r : bool) :
  (forall block proof,
     add_block self block proof = Ok (r, self') ->
     unconfirmed_data self' = unconfirmed_data self
     /\ exists tail, chain self' = chain self ++ tail
                     /\ List.length tail = if r then 1%nat else 0%nat)
  /\
  (forall fuel now,
     mine fuel now self = Ok (r, self') ->
     exists tail, chain self' = chain self ++ tail
                  /\ List.length tail = if r then 1%nat else 0%nat).
Proof.
  split.
  - intros block proof H. apply add_block_returns in H.
    destruct H as [(-> & ->) | (-> & ->)]; cbn [chain unconfirmed_data].
    + split; [reflexivity|]. exists []. rewrite app_nil_r. auto.
    + split; [reflexivity|]. eexists. split; reflexivity.
  - intros fuel now H. apply mine_returns in H.
    destruct H as [(_ & -> & ->) | (_ & -> & head & h & cand & proof & _ & _ & _ & ->)].
    + exists []. rewrite app_nil_r. auto.
    + cbn [chain]. eexists. split; reflexivity.
Qed.

Lemma operations_append_only_witness :
  exists tail,
    [genesis_block; Samples.block1] = chain (add_new_data Samples.node0 Samples.post) ++ tail
    /\ List.length tail = 1%nat.
Proof.
  apply (proj2 (operations_append_only
                  (add_new_data Samples.node0 Samples.post)
                  (mkBlockchain [] [genesis_block; Samples.block1]) true)
           3%nat Samples.now).
  vm_compute. reflexivity.
Defined.

(** X4: what [mine] appends.  The new head holds exactly the pending
    entries, in the order they were submitted, the time of the call, the
    head's index plus one and the head's hash; its stored hash is the digest
    of its own fields and has the leading zeros.  The pool is empty
    afterwards, so mining again at once returns false and changes nothing. *)
Theorem mine_block_contents (fuel : nat) (now : json) (self self' : Blockchain) :
  mine fuel now self = Ok (true, self') ->
  exists head new,
    last_block self = Ok head
    /\ chain self' = chain self ++ [new]
    /\ unconfirmed_data self' = []
    /\ index new = index head + 1
    /\ data new = unconfirmed_data self
    /\ timestamp new = now
    /\ hash head = Some (previous_hash new)
    /\ hash new = Some (compute_hash (delattr_hash new))
    /\ meets_difficulty (compute_hash (delattr_hash new)) = true
    /\ forall fuel' now', mine fuel' now' self' = Ok (false, self').
Proof.
  intros H. apply mine_returns in H.
  destruct H as [(_ & Hr & _) | (_ & _ & head & h & cand & proof & Hl & Hh & Hp & ->)];
    [discriminate Hr|].
  apply proof_of_work_loop_spec in Hp. destruct Hp as (k & _ & Hb & Hd & Hm & _).
  exists head, (setattr_hash proof cand).
  assert (Hnone : hash cand = None) by (rewrite Hb; reflexivity).
  rewrite (delattr_setattr_hash cand proof Hnone).
  repeat split; try (rewrite Hb; reflexivity).
  - exact Hl.
  - rewrite Hb. cbn [previous_hash setattr_hash setattr_nonce Block_init]. exact Hh.
  - cbn [hash setattr_hash]. rewrite Hd. reflexivity.
  - rewrite <- Hd. exact Hm.
Qed.

Lemma mine_block_contents_witness :
  exists head new,
    last_block (add_new_data Samples.node0 Samples.post) = Ok head
    /\ [genesis_block; Samples.block1]
       = chain (add_new_data Samples.node0 Samples.post) ++ [new]
    /\ @nil json = []
    /\ index new = index head + 1
    /\ data new = [Samples.post]
    /\ timestamp new = Samples.now
    /\ hash head = Some (previous_hash new)
    /\ hash new = Some (compute_hash (delattr_hash new))
    /\ meets_difficulty (compute_hash (delattr_hash new)) = true
    /\ forall fuel' now',
         mine fuel' now' (mkBlockchain [] [genesis_block; Samples.block1])
         = Ok (false, mkBlockchain [] [genesis_block; Samples.block1]).
Proof.
  apply (mine_block_contents 3 Samples.now
           (add_new_data Samples.node0 Samples.post)
           (mkBlockchain [] [genesis_block; Samples.block1])).
  vm_compute. reflexivity.
Defined.

(** ** check_chain_validity on the node's own chains, and on any list *)

Lemma genesis_block_not_valid :
  is_valid_proof (delattr_hash genesis_block) genesis_digest = false.
Proof. vm_compute. reflexivity. Qed.

(** X5: no chain a node builds passes [check_chain_validity]: the walk
    stops at the genesis block, whose hash has no leading zeros, returns
    false and leaves that block without its hash. *)
Theorem node_chain_fails_validity (self : Blockchain) :
  reachable any_block self ->
  check_chain_validity (map PBlock (chain self))
  = (PBlock (delattr_hash genesis_block) :: map PBlock (tl (chain self)), Ok false).
Proof.
  intros Hr. apply node_chain_of_reachable in Hr. destruct Hr as (rest & -> & _).
  unfold check_chain_validity. cbn [map tl].
  rewrite (check_loop_block "0" genesis_digest genesis_block _ genesis_block_hash_attr).
  rewrite genesis_block_not_valid. reflexivity.
Qed.

Lemma node_chain_fails_validity_witness :
  check_chain_validity (map PBlock [genesis_block; Samples.block1])
  = (PBlock (delattr_hash genesis_block) :: map PBlock [Samples.block1], Ok false).
Proof.
  exact (node_chain_fails_validity (mkBlockchain [] [genesis_block; Samples.block1])
           sample_reachable).
Defined.

Lemma check_loop_raises (pre : list Block) :
  forall (prev : string) (o : pyobj) (post : list pyobj),
    walk_valid prev pre ->
    lacks_hash o ->
    check_chain_validity_loop prev (map PBlock pre ++ o :: post)
    = (map PBlock pre ++ o :: post, Raise AttributeError).
Proof.
  induction pre as [|p pre IH]; intros prev o post Hpre Ho.
  - cbn [map app]. destruct o as [b|d]; cbn [check_chain_validity_loop]; [|reflexivity].
    cbn [lacks_hash] in Ho. rewrite Ho. reflexivity.
  - apply walk_valid_cons in Hpre. destruct Hpre as (hp & Hhp & Hpp & Hvp & Hrest).
    cbn [map app]. rewrite (check_loop_block prev hp p _ Hhp).
    rewrite Hvp, <- Hpp, String.eqb_refl. cbn [andb].
    rewrite (IH hp o post Hrest Ho). reflexivity.
Qed.

Lemma check_loop_raise_inv (chain : list pyobj) :
  forall (prev : string) (chain' : list pyobj) (e : exn),
    check_chain_validity_loop prev chain = (chain', Raise e) ->
    e = AttributeError /\ chain' = chain
    /\ exists pre o post,
         chain = map PBlock pre ++ o :: post /\ walk_valid prev pre /\ lacks_hash o.
Proof.
  induction chain as [|o rest IH]; intros prev chain' e; [discriminate|].
  destruct o as [b|d].
  - destruct (hash b) as [h|] eqn:Hh.
    + rewrite (check_loop_block prev h b rest Hh).
      destruct (is_valid_proof (delattr_hash b) h) eqn:Ev; cbn [andb]; [|discriminate].
      destruct (String.eqb prev (previous_hash b)) eqn:Ep; [|discriminate].
      destruct (check_chain_validity_loop h rest) as [rest' r] eqn:El.
      cbn [fst snd]. intros [= <- ->].
      destruct (IH h rest' e El) as (-> & -> & pre & o & post & -> & Hpre & Ho).
      repeat split. exists (b :: pre), o, post. repeat split; auto.
      apply walk_valid_cons. exists h. apply String.eqb_eq in Ep. auto.
    + cbn [check_chain_validity_loop]. rewrite Hh. intros [= <- <-].
      repeat split. exists [], (PBlock b), rest. repeat split; auto using walk_valid_nil.
  - cbn [check_chain_validity_loop]. intros [= <- <-].
    repeat split. exists [], (PDict d), rest. repeat split; auto using walk_valid_nil.
Qed.

(** X6: on any list, [check_chain_validity] raises exactly when the blocks
    up to some element all pass and that element is a dictionary or a block
    without [hash]; the exception is [AttributeError] and the list is left
    as it was. *)
Theorem check_chain_validity_raises (chain chain' : list pyobj) (e : exn) :
  check_chain_validity chain = (chain', Raise e)
  <->
  (e = AttributeError /\ chain' = chain
   /\ exists pre o post,
        chain = map PBlock pre ++ o :: post /\ chain_valid pre /\ lacks_hash o).
Proof.
  unfold check_chain_validity, chain_valid. split.
  - apply check_loop_raise_inv.
  - intros (-> & -> & pre & o & post & -> & Hpre & Ho).
    apply check_loop_raises; assumption.
Qed.

(** X7: after [check_chain_validity] has returned false on a list of
    blocks, a second call on the same blocks raises [AttributeError]: the
    block the first call stopped at has lost its hash. *)
Theorem check_chain_validity_twice (chain : list Block) (chain' : list pyobj) :
  check_chain_validity (map PBlock chain) = (chain', Ok false) ->
  check_chain_validity chain' = (chain', Raise AttributeError).
Proof.
  unfold check_chain_validity. intros H. apply check_loop_false in H.
  destruct H as (pre & b & post & h & _ & _ & Hpre & _ & ->).
  rewrite map_app. cbn [map].
  apply check_loop_raises; [exact Hpre | reflexivity].
Qed.

Lemma check_chain_validity_twice_witness :
  check_chain_validity
    [PBlock Samples.first99; PBlock (delattr_hash Samples.block1); PBlock Samples.second]
  = ([PBlock Samples.first99; PBlock (delattr_hash Samples.block1); PBlock Samples.second],
     Raise AttributeError).
Proof.
  apply (check_chain_validity_twice
           [Samples.first99; Samples.block1; Samples.second]).
  vm_compute. reflexivity.
Defined.

Lemma walk_valid_prefix (pre post : list Block) (first : string) :
  walk_valid first (pre ++ post) -> walk_valid first pre.
Proof.
  intros H i b Hi.
  assert (Hlt : (i < List.length pre)%nat)
    by (apply nth_error_Some; rewrite Hi; discriminate).
  destruct (H i b) as (h & Hh & He & Hv).
  { rewrite nth_error_app1 by exact Hlt. exact Hi. }
  exists h. repeat split; auto.
  destruct i as [|j]; [exact He|].
  cbn [expected_previous] in *. rewrite nth_error_app1 in He by lia. exact He.
Qed.

(** X8: if [check_chain_validity] returns true on a list of blocks, it
    returns true on every list of its first blocks. *)
Theorem check_chain_validity_prefix (pre post : list Block) :
  snd (check_chain_validity (map PBlock (pre ++ post))) = Ok true ->
  snd (check_chain_validity (map PBlock pre)) = Ok true.
Proof.
  unfold check_chain_validity. rewrite !check_loop_true. apply walk_valid_prefix.
Qed.

Lemma check_chain_validity_prefix_witness :
  snd (check_chain_validity (map PBlock [Samples.first99])) = Ok true.
Proof.
  apply (check_chain_validity_prefix [Samples.first99] [Samples.second]).
  vm_compute. reflexivity.
Defined.

Lemma check_chain_validity_raises_witness :
  check_chain_validity [PBlock Samples.first99; PDict Samples.genesis_data]
  = ([PBlock Samples.first99; PDict Samples.genesis_data], Raise AttributeError).
Proof.
  apply (proj2 (check_chain_validity_raises
                  [PBlock Samples.first99; PDict Samples.genesis_data]
                  [PBlock Samples.first99; PDict Samples.genesis_data]
                  AttributeError)).
  repeat split. exists [Samples.first99], (PDict Samples.genesis_data), [].
  repeat split.
  apply (check_loop_true [Samples.first99] "0"). vm_compute. reflexivity.
Defined.

(** ** Chains sent to other nodes *)

Lemma block_of_dict_data (b : Block) (d : BlockData) :
  block_dict_data b = Some d ->
  block_of_data d = delattr_hash b /\ hash b = Some (bd_hash d).
Proof.
  unfold block_dict_data. destruct (hash b) as [h|] eqn:Hh; [|discriminate].
  intros [= <-]. split; [reflexivity | reflexivity].
Qed.

(** A valid run of blocks has its dictionaries, and appending them in
    order to a chain whose head they link to rebuilds the run. *)
Lemma chain_data_walk (rest : list Block) :
  forall first : string,
    walk_valid first rest ->
    exists ds,
      chain_data rest = Some ds
      /\ List.length ds = List.length rest
      /\ forall bc head,
           last_block bc = Ok head -> hash head = Some first ->
           add_dumped_blocks bc ds
           = Ok (mkBlockchain (unconfirmed_data bc) (chain bc ++ rest)).
Proof.
  induction rest as [|b rest IH]; intros first Hw.
  - exists []. repeat split. intros [pool c] head _ _. cbn. rewrite app_nil_r. reflexivity.
  - apply walk_valid_cons in Hw. destruct Hw as (h & Hh & Hp & Hv & Hrest).
    destruct (IH h Hrest) as (ds & Hds & Hlen & Hadd).
    exists (mkBlockData (index b) (data b) (timestamp b) (previous_hash b) (nonce b) h :: ds).
    split; [|split].
    + cbn [chain_data]. unfold block_dict_data. rewrite Hh, Hds. reflexivity.
    + cbn [List.length]. rewrite Hlen. reflexivity.
    + intros bc head Hlast Hhead. cbn [add_dumped_blocks bd_hash].
      change (block_of_data _) with (delattr_hash b).
      rewrite (add_block_unfold bc head (delattr_hash b) first h Hlast Hhead).
      change (previous_hash (delattr_hash b)) with (previous_hash b).
      rewrite Hp, String.eqb_refl, Hv. cbn [andb bind negb].
      rewrite (setattr_delattr_hash b h Hh).
      rewrite (Hadd _ b (last_block_snoc _ _ b) Hh).
      cbn [chain unconfirmed_data]. rewrite <- app_assoc. reflexivity.
Qed.

(** The [/chain] answer of a node: one dictionary per block, at least the
    genesis block's. *)
Lemma get_chain_of_reachable (peer : Blockchain) :
  reachable any_block peer ->
  exists d ds,
    get_chain peer = Some (Z.of_nat (List.length (chain peer)), d :: ds).
Proof.
  intros Hr. apply node_chain_of_reachable in Hr. destruct Hr as (rest & Hc & Hrest).
  destruct (chain_data_walk rest genesis_digest Hrest) as (ds & Hds & Hlen & _).
  exists (mkBlockData 0 [] (JInt 0) "0" 0 genesis_digest), ds.
  unfold get_chain. rewrite Hc. cbn [chain_data].
  change (block_dict_data genesis_block)
    with (Some (mkBlockData 0 [] (JInt 0) "0" 0 genesis_digest)).
  rewrite Hds. cbn [List.length]. rewrite Hlen. reflexivity.
Qed.

(** X9: a chain a node has built survives the trip to another node: the
    dictionaries [/chain] sends, one per block, are rebuilt by
    [create_chain_from_dump] into the very same chain, with an empty pool;
    the reported length is the number of blocks. *)
Theorem create_chain_from_dump_get_chain (peer : Blockchain) :
  reachable any_block peer ->
  exists dump,
    get_chain peer = Some (Z.of_nat (List.length (chain peer)), dump)
    /\ create_chain_from_dump dump = Ok (mkBlockchain [] (chain peer)).
Proof.
  intros Hr. apply node_chain_of_reachable in Hr. destruct Hr as (rest & Hc & Hrest).
  destruct (chain_data_walk rest genesis_digest Hrest) as (ds & Hds & Hlen & Hadd).
  exists (mkBlockData 0 [] (JInt 0) "0" 0 genesis_digest :: ds). split.
  - unfold get_chain. rewrite Hc. cbn [chain_data].
    change (block_dict_data genesis_block)
      with (Some (mkBlockData 0 [] (JInt 0) "0" 0 genesis_digest)).
    rewrite Hds. cbn [List.length]. rewrite Hlen. reflexivity.
  - unfold create_chain_from_dump. cbn [tl].
    rewrite (Hadd (create_genesis_block Blockchain_init) genesis_block
               (last_block_snoc [] [] genesis_block) genesis_block_hash_attr).
    rewrite Hc. reflexivity.
Qed.

Lemma create_chain_from_dump_get_chain_witness :
  exists dump,
    get_chain (mkBlockchain [] [genesis_block; Samples.block1])
    = Some (Z.of_nat (List.length [genesis_block; Samples.block1]), dump)
    /\ create_chain_from_dump dump
       = Ok (mkBlockchain [] [genesis_block; Samples.block1]).
Proof.
  exact (create_chain_from_dump_get_chain
           (mkBlockchain [] [genesis_block; Samples.block1]) sample_reachable).
Defined.

Lemma last_block_same_chain (a b : Blockchain) :
  chain b = chain a -> last_block b = last_block a.
Proof. unfold last_block. intros ->. reflexivity. Qed.

(** X10: a block one node has mined is accepted by [/add_block] on every
    node that holds the same chain: given the fields and the hash of the new
    head, the handler answers 201 and that node's chain becomes the miner's
    chain; its pool is left as it was. *)
Theorem mined_block_accepted_by_peer (fuel : nat) (now : json)
    (miner miner' peer : Blockchain) :
  chain peer = chain miner ->
  mine fuel now miner = Ok (true, miner') ->
  exists new block_data,
    last_block miner' = Ok new
    /\ block_dict_data new = Some block_data
    /\ verify_and_add_block block_data peer
       = Ok (("Block added to the chain", 201),
             mkBlockchain (unconfirmed_data peer) (chain miner')).
Proof.
  intros Hsame H. apply mine_returns in H.
  destruct H as [(_ & Hr & _) | (_ & _ & head & h & cand & proof & Hl & Hh & Hp & ->)];
    [discriminate Hr|].
  assert (Hacc := mined_candidate_accepted miner head cand h proof fuel now Hl Hh Hp).
  destruct (add_block_accepted miner _ head cand h proof Hl Hh Hacc) as (Hprev & Hv & _).
  apply proof_of_work_loop_spec in Hp. destruct Hp as (k & _ & Hb & _).
  assert (Hnone : hash cand = None) by (rewrite Hb; reflexivity).
  exists (setattr_hash proof cand),
    (mkBlockData (index cand) (data cand) (timestamp cand) (previous_hash cand)
                 (nonce cand) proof).
  split; [apply last_block_snoc|]. split; [reflexivity|].
  unfold verify_and_add_block. cbn [bd_hash].
  change (block_of_data _) with (delattr_hash cand).
  rewrite (delattr_hash_absent cand Hnone).
  rewrite <- (last_block_same_chain miner peer Hsame) in Hl.
  rewrite (add_block_unfold peer head cand h proof Hl Hh).
  rewrite Hprev, String.eqb_refl, Hv. cbn [andb bind negb chain].
  rewrite Hsame. reflexivity.
Qed.

Lemma mined_block_accepted_by_peer_witness :
  exists new block_data,
    last_block (mkBlockchain [] [genesis_block; Samples.block1]) = Ok new
    /\ block_dict_data new = Some block_data
    /\ verify_and_add_block block_data Samples.node0
       = Ok (("Block added to the chain", 201),
             mkBlockchain (unconfirmed_data Samples.node0)
                          (chain (mkBlockchain [] [genesis_block; Samples.block1]))).
Proof.
  apply (mined_block_accepted_by_peer 3 Samples.now
           (add_new_data Samples.node0 Samples.post)
           (mkBlockchain [] [genesis_block; Samples.block1]) Samples.node0).
  - reflexivity.
  - vm_compute. reflexivity.
Defined.

(** ** consensus, on every list of answers *)

Lemma consensus_loop_cases (responses : list (Z * list BlockData)) :
  forall (current_len : Z) (longest : option (list pyobj)),
    (exists current_len' longest',
        consensus_loop responses current_len longest = Ok (current_len', longest'))
    \/ consensus_loop responses current_len longest = Raise AttributeError.
Proof.
  induction responses as [|[len c] rest IH]; intros cur longest.
  - left. eexists. eexists. reflexivity.
  - cbn [consensus_loop]. destruct (len >? cur); [|apply IH].
    rewrite check_chain_validity_dicts. destruct c as [|d c]; cbn [bind].
    + apply IH.
    + right. reflexivity.
Qed.

(** X11: [consensus] never returns true and never replaces the chain: on a
    node and any list of answers it either returns false with the node's
    chain object as it was, or raises [AttributeError]. *)
Theorem consensus_false_or_raises (blockchain : node)
    (responses : list (Z * list BlockData)) :
  consensus blockchain responses = Ok (false, blockchain)
  \/ consensus blockchain responses = Raise AttributeError.
Proof.
  unfold consensus. destruct blockchain as [bc|l]; cbn [node_chain_len bind];
    [|right; reflexivity].
  destruct (consensus_loop_cases responses (Z.of_nat (List.length (chain bc))) None)
    as [(cur' & longest' & E) | E]; rewrite E; cbn [bind]; [|right; reflexivity].
  apply consensus_loop_longest in E; [|left; reflexivity].
  left. destruct E as [-> | ->]; reflexivity.
Qed.

Lemma consensus_loop_not_checked (local_len : Z)
    (responses : list (Z * list BlockData)) :
  Forall (not_checked local_len) responses ->
  forall (current_len : Z) (longest : option (list pyobj)),
    local_len <= current_len ->
    exists current_len' longest',
      consensus_loop responses current_len longest = Ok (current_len', longest').
Proof.
  induction 1 as [|[len c] rest Hr _ IH]; intros cur longest Hcur.
  - eexists. eexists. reflexivity.
  - cbn [consensus_loop]. destruct (len >? cur) eqn:E; [|apply IH; exact Hcur].
    apply Z.gtb_lt in E. destruct Hr as [Hlen | Hc]; cbn [fst snd] in *; [lia|].
    subst c. cbn [map]. unfold check_chain_validity. cbn [check_chain_validity_loop bind].
    apply IH. lia.
Qed.

(** X12: when every answer either reports no more blocks than the node has
    or carries an empty chain, [consensus] returns false and the node keeps
    its chain.  No peers at all is one such case. *)
Theorem consensus_nothing_longer (bc : Blockchain)
    (responses : list (Z * list BlockData)) :
  Forall (not_checked (Z.of_nat (List.length (chain bc)))) responses ->
  consensus (NodeBlockchain bc) responses = Ok (false, NodeBlockchain bc).
Proof.
  intros H. unfold consensus. cbn [node_chain_len bind].
  destruct (consensus_loop_not_checked _ responses H
              (Z.of_nat (List.length (chain bc))) None (Z.le_refl _))
    as (cur' & longest' & E).
  rewrite E. cbn [bind].
  apply consensus_loop_longest in E; [|left; reflexivity].
  destruct E as [-> | ->]; reflexivity.
Qed.

Lemma consensus_nothing_longer_witness :
  consensus (NodeBlockchain (mkBlockchain [] [genesis_block; Samples.block1]))
    [(1, [Samples.genesis_data]); (2, [Samples.genesis_data; Samples.block1_data]);
     (7, [])]
  = Ok (false, NodeBlockchain (mkBlockchain [] [genesis_block; Samples.block1])).
Proof.
  apply consensus_nothing_longer.
  repeat constructor; cbn; lia.
Defined.

Lemma consensus_loop_skips (before : list (Z * list BlockData)) :
  forall (current_len : Z) (longest : option (list pyobj))
         (rest : list (Z * list BlockData)),
    Forall (fun response => fst response <= current_len) before ->
    consensus_loop (before ++ rest) current_len longest
    = consensus_loop rest current_len longest.
Proof.
  induction before as [|[len c] before IH]; intros cur longest rest H; [reflexivity|].
  inversion H as [|x l Hlen Hbefore]; subst. cbn [fst] in Hlen.
  cbn [app consensus_loop].
  assert (E : (len >? cur) = false) by (rewrite Z.gtb_ltb; apply Z.ltb_ge; lia).
  rewrite E. apply IH. exact Hbefore.
Qed.

(** X13: a node never adopts the chain of a peer that is ahead of it.  If
    the answers met first report no more blocks than the node has, and the
    next one is the [/chain] answer of a peer whose chain, built as a node
    builds it, is longer, then [consensus] raises [AttributeError]. *)
Theorem consensus_longer_peer_raises (self peer : Blockchain)
    (before after : list (Z * list BlockData)) :
  reachable any_block peer ->
  (List.length (chain self) < List.length (chain peer))%nat ->
  Forall (fun response => fst response <= Z.of_nat (List.length (chain self))) before ->
  exists answer,
    get_chain peer = Some answer
    /\ consensus (NodeBlockchain self) (before ++ answer :: after)
       = Raise AttributeError.
Proof.
  intros Hr Hlen Hbefore.
  destruct (get_chain_of_reachable peer Hr) as (d & ds & Hg).
  exists (Z.of_nat (List.length (chain peer)), d :: ds). split; [exact Hg|].
  unfold consensus. cbn [node_chain_len bind].
  rewrite (consensus_loop_skips before _ None _ Hbefore).
  cbn [consensus_loop].
  assert (E : (Z.of_nat (List.length (chain peer))
               >? Z.of_nat (List.length (chain self))) = true)
    by (apply Z.gtb_lt; lia).
  rewrite E, check_chain_validity_dicts. reflexivity.
Qed.

Lemma consensus_longer_peer_raises_witness :
  exists answer,
    get_chain (mkBlockchain [] [genesis_block; Samples.block1]) = Some answer
    /\ consensus (NodeBlockchain Samples.node0)
         ([(1, [Samples.genesis_data])] ++ answer :: [])
       = Raise AttributeError.
Proof.
  apply (consensus_longer_peer_raises Samples.node0
           (mkBlockchain [] [genesis_block; Samples.block1])
           [(1, [Samples.genesis_data])] [] sample_reachable).
  - cbn. lia.
  - repeat constructor. cbn. lia.
Defined.

(** ** /new_data *)

Lemma dict_get_set_same (key : string) (v : json) (d : list (string * json)) :
  dict_get key (dict_set key v d) = Some v.
Proof.
  induction d as [|[k x] d IH]; cbn [dict_set dict_get].
  - rewrite String.eqb_refl. reflexivity.
  - destruct (String.eqb k key) eqn:E; cbn [dict_get]; rewrite E; [reflexivity | exact IH].
Qed.

Lemma dict_get_set_other (key key' : string) (v : json) (d : list (string * json)) :
  key' <> key -> dict_get key' (dict_set key v d) = dict_get key' d.
Proof.
  intros Hne. induction d as [|[k x] d IH]; cbn [dict_set dict_get].
  - apply String.eqb_neq in Hne. rewrite String.eqb_sym, Hne. reflexivity.
  - destruct (String.eqb k key) eqn:E; cbn [dict_get].
    + apply String.eqb_eq in E. subst k.
      apply String.eqb_neq in Hne. rewrite String.eqb_sym, Hne. reflexivity.
    + rewrite IH. reflexivity.
Qed.

Lemma field_missing_false (d : list (string * json)) (field : string) :
  field_missing d field = false <->
  exists v, dict_get field d = Some v /\ truthy v = true.
Proof.
  unfold field_missing. destruct (dict_get field d) as [v|].
  - rewrite negb_false_iff. split; [eauto | intros (v' & [= <-] & H); exact H].
  - split; [discriminate | intros (v & H & _); discriminate H].
Qed.

(** X14: [/new_data] answers 404 exactly when the body, a dictionary, has
    no [author] or no [content], or has one that counts as false (null, an
    empty string, zero, an empty list or dictionary); the node is left as it
    was.  A body that is not a dictionary makes the handler raise. *)
Theorem new_data_rejects (now : json) (tx_data : json) (blockchain : Blockchain) :
  (forall d,
     tx_data = JDict d ->
     (new_data now tx_data blockchain = Ok (("Invalid data", 404), blockchain)
      <-> ~ (exists a c,
               dict_get "author" d = Some a /\ truthy a = true
               /\ dict_get "content" d = Some c /\ truthy c = true)))
  /\ ((forall d, tx_data <> JDict d) ->
      new_data now tx_data blockchain = Raise AttributeError).
Proof.
  split.
  - intros d ->. unfold new_data, required_fields. cbn [existsb].
    rewrite orb_false_r.
    destruct (field_missing d "author") eqn:Ea; cbn [orb].
    + split; [|reflexivity]. intros _ (a & c & Ha & Hta & _).
      assert (field_missing d "author" = false)
        by (apply field_missing_false; eauto). congruence.
    + destruct (field_missing d "content") eqn:Ec.
      * split; [|reflexivity]. intros _ (a & c & _ & _ & Hc & Htc).
        assert (field_missing d "content" = false)
          by (apply field_missing_false; eauto). congruence.
      * split; [discriminate|]. intros H. exfalso. apply H.
        apply field_missing_false in Ea. apply field_missing_false in Ec.
        destruct Ea as (a & Ha & Hta). destruct Ec as (c & Hc & Htc).
        exists a, c. auto.
  - intros Hnd. destruct tx_data; try reflexivity. exfalso. apply (Hnd items). reflexivity.
Qed.

Lemma new_data_rejects_witness :
  new_data Samples.now (JDict [("author", JStr "a"); ("content", JStr "")]) Samples.node0
  = Ok (("Invalid data", 404), Samples.node0)
  /\ new_data Samples.now (JList []) Samples.node0 = Raise AttributeError.
Proof.
  split.
  - apply (proj1 (new_data_rejects Samples.now
                    (JDict [("author", JStr "a"); ("content", JStr "")]) Samples.node0)
             [("author", JStr "a"); ("content", JStr "")] eq_refl).
    intros (a & c & _ & _ & Hc & Htc). cbn in Hc. injection Hc as <-. discriminate Htc.
  - apply (proj2 (new_data_rejects Samples.now (JList []) Samples.node0)).
    intros d H. discriminate H.
Defined.

(** X15: when [/new_data] answers 201, exactly one entry has been added, at
    the end of the pool, and the chain is untouched.  The entry is the
    submitted dictionary with [timestamp] set to the time of the call,
    whatever timestamp was submitted; every other key reads as submitted. *)
Theorem new_data_accepts (now : json) (tx_data : json) (blockchain blockchain' : Blockchain)
    (body : string) :
  new_data now tx_data blockchain = Ok ((body, 201), blockchain') ->
  exists d entry,
    tx_data = JDict d
    /\ unconfirmed_data blockchain' = unconfirmed_data blockchain ++ [JDict entry]
    /\ chain blockchain' = chain blockchain
    /\ dict_get "timestamp" entry = Some now
    /\ forall key, key <> "timestamp" -> dict_get key entry = dict_get key d.
Proof.
  unfold new_data. destruct tx_data as [| | | | |items|d]; try discriminate.
  destruct (existsb (field_missing d) required_fields); [discriminate|].
  intros [= _ <-]. exists d, (dict_set "timestamp" now d).
  repeat split.
  - apply dict_get_set_same.
  - intros key Hne. apply dict_get_set_other. exact Hne.
Qed.

Lemma new_data_accepts_witness :
  exists d entry,
    JDict [("timestamp", JInt 1); ("author", JStr "a"); ("content", JStr "hi")] = JDict d
    /\ unconfirmed_data
         (add_new_data Samples.node0
            (JDict [("timestamp", Samples.now); ("author", JStr "a");
                    ("content", JStr "hi")]))
       = unconfirmed_data Samples.node0 ++ [JDict entry]
    /\ chain
         (add_new_data Samples.node0
            (JDict [("timestamp", Samples.now); ("author", JStr "a");
                    ("content", JStr "hi")]))
       = chain Samples.node0
    /\ dict_get "timestamp" entry = Some Samples.now
    /\ forall key, key <> "timestamp" -> dict_get key entry = dict_get key d.
Proof.
  apply (new_data_accepts Samples.now
           (JDict [("timestamp", JInt 1); ("author", JStr "a"); ("content", JStr "hi")])
           Samples.node0 _ "Success").
  reflexivity.
Defined.

Lemma new_data_appends (now : json) (tx_data : json)
    (blockchain blockchain' : Blockchain) (body : string) :
  new_data now tx_data blockchain = Ok ((body, 201), blockchain') ->
  exists entry,
    unconfirmed_data blockchain' = unconfirmed_data blockchain ++ [entry]
    /\ chain blockchain' = chain blockchain.
Proof.
  unfold new_data. destruct tx_data as [| | | | |items|d]; try discriminate.
  destruct (existsb (field_missing d) required_fields); [discriminate|].
  intros [= _ <-]. eexists. split; reflexivity.
Qed.

(** X16: a submission that was accepted is in the next block.  After
    [/new_data] has answered 201, a call of [mine] that returns does not
    return false: it appends a block whose data is the pool as it was before
    the submission followed by the new entry, and empties the pool. *)
Theorem submitted_data_is_mined (now now' : json) (tx_data : json) (fuel : nat)
    (blockchain submitted mined : Blockchain) (body : string) (r : bool) :
  new_data now tx_data blockchain = Ok ((body, 201), submitted) ->
  mine fuel now' submitted = Ok (r, mined) ->
  r = true
  /\ unconfirmed_data mined = []
  /\ exists entry new,
       unconfirmed_data submitted = unconfirmed_data blockchain ++ [entry]
       /\ chain mined = chain blockchain ++ [new]
       /\ data new = unconfirmed_data blockchain ++ [entry].
Proof.
  intros Hnew Hmine. apply new_data_appends in Hnew.
  destruct Hnew as (entry & Hpool & Hchain).
  apply mine_returns in Hmine.
  destruct Hmine as [(Hnil & _) | (_ & -> & head & h & cand & proof & _ & _ & Hp & ->)].
  - rewrite Hpool in Hnil. destruct (unconfirmed_data blockchain); discriminate Hnil.
  - apply proof_of_work_loop_spec in Hp. destruct Hp as (k & _ & Hb & _).
    repeat split. exists entry, (setattr_hash proof cand).
    cbn [chain]. rewrite Hchain, Hb. cbn [data setattr_hash setattr_nonce Block_init].
    auto.
Qed.

Lemma submitted_data_is_mined_witness :
  true = true
  /\ unconfirmed_data (mkBlockchain [] [genesis_block; Samples.block1]) = []
  /\ exists entry new,
       unconfirmed_data (add_new_data Samples.node0 Samples.post)
       = unconfirmed_data Samples.node0 ++ [entry]
       /\ chain (mkBlockchain [] [genesis_block; Samples.block1])
          = chain Samples.node0 ++ [new]
       /\ data new = unconfirmed_data Samples.node0 ++ [entry].
Proof.
  apply (submitted_data_is_mined (JFloat "1699999999.25") Samples.now
           (JDict [("author", JStr "a"); ("content", JStr "hi")]) 3
           Samples.node0 (add_new_data Samples.node0 Samples.post)
           (mkBlockchain [] [genesis_block; Samples.block1]) "Success" true).
  - reflexivity.
  - vm_compute. reflexivity.
Defined.

(** ** The form of a digest *)

Lemma sha256_blocks_length (fuel : nat) :
  forall h ws : list Z,
    List.length h = 8%nat -> List.length (Sha256.blocks fuel h ws) = 8%nat.
Proof.
  induction fuel as [|fuel IH]; intros h ws Hh; cbn [Sha256.blocks].
  - destruct ws; exact Hh.
  - destruct ws as [|w ws]; [exact Hh|]. apply IH. reflexivity.
Qed.

Lemma sha256_digest_length (msg : list Z) :
  List.length (Sha256.digest msg) = 8%nat.
Proof. unfold Sha256.digest. apply sha256_blocks_length. reflexivity. Qed.

Lemma hex_digit_lower (x : Z) :
  is_lower_hex (Sha256.hex_digit (Z.land x 15)) = true.
Proof.
  change 15 with (Z.ones 4). rewrite Z.land_ones by lia.
  pose proof (Z.mod_pos_bound x (2 ^ 4) ltac:(lia)) as Hb.
  remember (x mod 2 ^ 4) as d eqn:Hd. clear Hd.
  assert (Hcases : d = 0 \/ d = 1 \/ d = 2 \/ d = 3 \/ d = 4 \/ d = 5 \/ d = 6 \/ d = 7
                   \/ d = 8 \/ d = 9 \/ d = 10 \/ d = 11 \/ d = 12 \/ d = 13
                   \/ d = 14 \/ d = 15) by lia.
  repeat (destruct Hcases as [-> | Hcases]; [reflexivity|]). subst d. reflexivity.
Qed.

Lemma hex_word (x : Z) :
  String.length (Sha256.hex 8 x) = 8%nat
  /\ forallb is_lower_hex (list_ascii_of_string (Sha256.hex 8 x)) = true.
Proof.
  split; [reflexivity|].
  cbn [Sha256.hex list_ascii_of_string forallb].
  rewrite !hex_digit_lower. reflexivity.
Qed.

Lemma concat_empty_cons (s : string) (l : list string) :
  String.concat EmptyString (s :: l) = (s ++ String.concat EmptyString l)%string.
Proof.
  destruct l as [|y l]; cbn [String.concat]; [|reflexivity].
  induction s as [|c s IH]; cbn [String.append]; [reflexivity|].
  rewrite <- IH. reflexivity.
Qed.

Lemma string_length_append (s t : string) :
  String.length (s ++ t) = (String.length s + String.length t)%nat.
Proof. induction s as [|c s IH]; cbn; [reflexivity | rewrite IH; reflexivity]. Qed.

Lemma concat_hex_words (l : list Z) :
  String.length (String.concat "" (map (Sha256.hex 8) l)) = (8 * List.length l)%nat
  /\ forallb is_lower_hex
       (list_ascii_of_string (String.concat "" (map (Sha256.hex 8) l))) = true.
Proof.
  induction l as [|x l [IHlen IHhex]]; [split; reflexivity|].
  destruct (hex_word x) as [Hlen Hhex].
  assert (E := concat_empty_cons (Sha256.hex 8 x) (map (Sha256.hex 8) l)).
  cbn [map].
  rewrite E. split.
  - rewrite string_length_append, Hlen, IHlen. cbn [List.length]. lia.
  - revert Hhex. generalize (Sha256.hex 8 x). intros s.
    induction s as [|c s IHs]; cbn [String.append list_ascii_of_string forallb].
    + intros _. exact IHhex.
    + intros H. apply andb_true_iff in H. destruct H as [Hc Hs].
      rewrite Hc. cbn [andb]. apply IHs. exact Hs.
Qed.

(** X17: whatever the block, [compute_hash] returns 64 characters, each a
    digit or a lower-case letter from a to f. *)
Theorem compute_hash_format (b : Block) :
  String.length (compute_hash b) = 64%nat
  /\ forallb is_lower_hex (list_ascii_of_string (compute_hash b)) = true.
Proof.
  unfold compute_hash, Sha256.hexdigest.
  destruct (concat_hex_words
              (Sha256.digest (Sha256.bytes_of_string (Json.dumps (JDict (Block_dict b))))))
    as [Hlen Hhex].
  rewrite sha256_digest_length in Hlen. split; [exact Hlen | exact Hhex].
Qed.

(** ** sort_keys: the digest and the order of keys *)

Lemma string_compare_trans (s1 : string) :
  forall s2 s3 : string,
    String.compare s1 s2 <> Gt -> String.compare s2 s3 <> Gt ->
    String.compare s1 s3 <> Gt.
Proof.
  induction s1 as [|a s1 IH]; intros [|b s2] [|c s3]; cbn [String.compare];
    try congruence.
  unfold Ascii.compare.
  destruct (N.compare_spec (N_of_ascii a) (N_of_ascii b)),
           (N.compare_spec (N_of_ascii b) (N_of_ascii c)),
           (N.compare_spec (N_of_ascii a) (N_of_ascii c));
    try congruence; try lia.
  apply IH.
Qed.

Lemma string_leb_compare (s1 s2 : string) :
  String.leb s1 s2 = true <-> String.compare s1 s2 <> Gt.
Proof.
  unfold String.leb. destruct (String.compare s1 s2); split; congruence.
Qed.

Lemma string_leb_trans (s1 s2 s3 : string) :
  String.leb s1 s2 = true -> String.leb s2 s3 = true -> String.leb s1 s3 = true.
Proof. rewrite !string_leb_compare. apply string_compare_trans. Qed.

Section SortItems.

Variable A : Type.

Lemma insert_item_perm (kv : string * A) (l : list (string * A)) :
  Permutation (Json.insert_item kv l) (kv :: l).
Proof.
  induction l as [|kv' l IH]; cbn [Json.insert_item]; [reflexivity|].
  destruct (String.leb (fst kv) (fst kv')); [reflexivity|].
  rewrite IH. apply perm_swap.
Qed.

Lemma sort_items_perm (l : list (string * A)) : Permutation (Json.sort_items l) l.
Proof.
  induction l as [|kv l IH]; [reflexivity|].
  unfold Json.sort_items in *. cbn [fold_right].
  rewrite insert_item_perm, IH. reflexivity.
Qed.

Lemma insert_item_sorted (kv : string * A) (l : list (string * A)) :
  StronglySorted (@key_le A) l -> StronglySorted (@key_le A) (Json.insert_item kv l).
Proof.
  induction 1 as [|kv' l Hl IH Hall]; cbn [Json.insert_item].
  - constructor; constructor.
  - destruct (String.leb (fst kv) (fst kv')) eqn:E.
    + constructor; [constructor; assumption|].
      constructor; [exact E|].
      apply Forall_forall. intros y Hy.
      apply (string_leb_trans _ (fst kv')); [exact E|].
      apply (proj1 (Forall_forall _ _) Hall y Hy).
    + constructor; [exact IH|].
      apply (Permutation_Forall (Permutation_sym (insert_item_perm kv l))).
      constructor; [|exact Hall].
      destruct (String.leb_total (fst kv) (fst kv')) as [H | H]; [congruence | exact H].
Qed.

Lemma sort_items_sorted (l : list (string * A)) :
  StronglySorted (@key_le A) (Json.sort_items l).
Proof.
  induction l as [|kv l IH]; [constructor|].
  unfold Json.sort_items in *. cbn [fold_right]. apply insert_item_sorted. exact IH.
Qed.

(** With distinct keys there is one sorted arrangement. *)
Lemma sorted_items_unique (l1 : list (string * A)) :
  forall l2 : list (string * A),
    StronglySorted (@key_le A) l1 -> StronglySorted (@key_le A) l2 ->
    Permutation l1 l2 -> NoDup (map fst l1) ->
    l1 = l2.
Proof.
  induction l1 as [|x t1 IH]; intros l2 Hs1 Hs2 Hp Hnd.
  - apply Permutation_nil in Hp. subst. reflexivity.
  - destruct l2 as [|y t2].
    { apply Permutation_sym, Permutation_nil in Hp. discriminate Hp. }
    inversion Hs1 as [|? ? Ht1 Hx1]; subst.
    inversion Hs2 as [|? ? Ht2 Hy2]; subst.
    inversion Hnd as [|? ? Hnotin Hnd']; subst.
    assert (Hxy : x = y).
    { assert (Hy : In y (x :: t1))
        by (apply (Permutation_in _ (Permutation_sym Hp)); left; reflexivity).
      assert (Hx : In x (y :: t2))
        by (apply (Permutation_in _ Hp); left; reflexivity).
      destruct Hy as [Hy | Hy]; [exact Hy|].
      destruct Hx as [Hx | Hx]; [symmetry; exact Hx|].
      exfalso. apply Hnotin.
      assert (Hk : fst x = fst y).
      { apply String.leb_antisym.
        - apply (proj1 (Forall_forall _ _) Hx1 y Hy).
        - apply (proj1 (Forall_forall _ _) Hy2 x Hx). }
      rewrite Hk. apply in_map. exact Hy. }
    subst y. f_equal. apply IH; auto.
    apply (Permutation_cons_inv Hp).
Qed.

Lemma sort_items_permutation (l l' : list (string * A)) :
  Permutation l l' -> NoDup (map fst l) ->
  Json.sort_items l = Json.sort_items l'.
Proof.
  intros Hp Hnd. apply sorted_items_unique; auto using sort_items_sorted.
  - rewrite !sort_items_perm. exact Hp.
  - apply (Permutation_NoDup (l := map fst l)); [|exact Hnd].
    apply Permutation_map. symmetry. apply sort_items_perm.
Qed.

End SortItems.

Lemma dumps_dict (items : list (string * json)) :
  Json.dumps (JDict items)
  = ("{" ++ String.concat ", "
       (map Json.encode_item
          (Json.sort_items
             (map (fun kv => match kv with (k, v) => (k, Json.dumps v) end) items)))
     ++ "}")%string.
Proof. reflexivity. Qed.

Lemma dumps_list (items : list json) :
  Json.dumps (JList items)
  = ("[" ++ String.concat ", " (map Json.dumps items) ++ "]")%string.
Proof. reflexivity. Qed.

Lemma dumps_dict_permutation (items items' : list (string * json)) :
  Permutation items items' -> NoDup (map fst items) ->
  Json.dumps (JDict items) = Json.dumps (JDict items').
Proof.
  intros Hp Hnd. rewrite !dumps_dict.
  rewrite (sort_items_permutation string
             (map (fun kv => match kv with (k, v) => (k, Json.dumps v) end) items)
             (map (fun kv => match kv with (k, v) => (k, Json.dumps v) end) items')).
  - reflexivity.
  - apply Permutation_map. exact Hp.
  - rewrite map_map. erewrite map_ext; [exact Hnd|]. intros [k v]. reflexivity.
Qed.

(** X18: the digest of a block does not depend on the order of the keys of
    an entry of its data: with the keys of one entry rearranged (the keys
    being distinct, as they are in a dictionary), [compute_hash] returns the
    same value. *)
Theorem compute_hash_key_order (b : Block) (pre post : list json)
    (items items' : list (string * json)) :
  data b = pre ++ JDict items :: post ->
  Permutation items items' ->
  NoDup (map fst items) ->
  compute_hash b
  = compute_hash (mkBlock (index b) (pre ++ JDict items' :: post) (timestamp b)
                          (previous_hash b) (nonce b) (hash b)).
Proof.
  intros Hd Hp Hnd. unfold compute_hash.
  assert (E : Json.dumps (JList (data b))
              = Json.dumps (JList (pre ++ JDict items' :: post))).
  { rewrite Hd, !dumps_list, !map_app. cbn [map].
    rewrite (dumps_dict_permutation items items' Hp Hnd). reflexivity. }
  rewrite !dumps_dict. unfold Block_dict.
  cbn [index data timestamp previous_hash nonce hash map app].
  rewrite E. reflexivity.
Qed.

Lemma compute_hash_key_order_witness :
  compute_hash (delattr_hash Samples.block1)
  = compute_hash
      (mkBlock 1 ([] ++ JDict [("content", JStr "hi");
                               ("timestamp", JFloat "1699999999.25");
                               ("author", JStr "a")] :: [])
               Samples.now Samples.genesis_hash 1 None).
Proof.
  apply (compute_hash_key_order (delattr_hash Samples.block1) [] []
           [("author", JStr "a"); ("content", JStr "hi");
            ("timestamp", JFloat "1699999999.25")]).
  - reflexivity.
  - apply perm_trans with
      (l' := [("content", JStr "hi"); ("author", JStr "a");
              ("timestamp", JFloat "1699999999.25")]).
    + apply perm_swap.
    + apply perm_skip. apply perm_swap.
  - repeat constructor; cbn; intuition discriminate.
Defined.

(** ** The chain create_chain_from_dump returns *)

Lemma add_dumped_blocks_node_chain (rest : list BlockData) :
  forall bc bc' : Blockchain,
    node_chain (chain bc) ->
    add_dumped_blocks bc rest = Ok bc' ->
    node_chain (chain bc')
    /\ unconfirmed_data bc' = unconfirmed_data bc
    /\ List.length (chain bc') = (List.length (chain bc) + List.length rest)%nat.
Proof.
  induction rest as [|bd rest IH]; intros bc bc' Hbc.
  - cbn [add_dumped_blocks]. intros [= <-]. cbn [List.length]. auto.
  - cbn [add_dumped_blocks].
    destruct (add_block bc (block_of_data bd) (bd_hash bd)) as [[added bc1]| |] eqn:Eadd;
      cbn [bind]; try discriminate.
    destruct added; cbn [negb]; [|discriminate].
    intros Hrest.
    destruct Hbc as (tail & Hc & Htail).
    destruct (node_chain_last tail (unconfirmed_data bc) Htail)
      as (head & h & Hlast & Hh & _).
    assert (Hself : mkBlockchain (unconfirmed_data bc) (genesis_block :: tail) = bc)
      by (destruct bc; cbn [chain unconfirmed_data] in *; subst; reflexivity).
    rewrite Hself in Hlast.
    destruct (add_block_accepted bc bc1 head _ h _ Hlast Hh Eadd) as (Hp & Hv & ->).
    assert (Hnc : node_chain (chain bc ++ [setattr_hash (bd_hash bd) (block_of_data bd)])).
    { apply (node_chain_extend bc head _ h); auto. exists tail. auto. }
    destruct (IH (mkBlockchain (unconfirmed_data bc)
                    (chain bc ++ [setattr_hash (bd_hash bd) (block_of_data bd)]))
                 bc' Hnc Hrest) as (H1 & H2 & H3).
    cbn [chain unconfirmed_data] in *.
    repeat split; auto.
    rewrite H3, length_app. cbn [List.length]. lia.
Qed.

(** X19: a chain that [create_chain_from_dump] returns is built as a node
    builds its own: genesis block first, every later block linked to the
    one before it and carrying a valid proof.  It has one block for the
    genesis block and one for each entry of the dump after the first, and
    its pool is empty. *)
Theorem create_chain_from_dump_node_chain (chain_dump : list BlockData)
    (generated_blockchain : Blockchain) :
  create_chain_from_dump chain_dump = Ok generated_blockchain ->
  node_chain (chain generated_blockchain)
  /\ unconfirmed_data generated_blockchain = []
  /\ List.length (chain generated_blockchain) = S (List.length (tl chain_dump)).
Proof.
  unfold create_chain_from_dump. intros H.
  apply add_dumped_blocks_node_chain in H; [exact H|].
  exists []. split; [reflexivity | apply walk_valid_nil].
Qed.

Lemma create_chain_from_dump_node_chain_witness :
  node_chain [genesis_block; Samples.block1]
  /\ @nil json = []
  /\ List.length [genesis_block; Samples.block1]
     = S (List.length (tl [Samples.genesis_data; Samples.block1_data])).
Proof.
  apply (create_chain_from_dump_node_chain
           [Samples.genesis_data; Samples.block1_data]
           (mkBlockchain [] [genesis_block; Samples.block1])).
  vm_compute. reflexivity.
Defined.
